(** * magneto: Monte Carlo core of the 2D Ising simulation

    A shallow embedding of [LatticeAlgorithms.cpp] (exponential cache,
    Metropolis and Swendsen-Wang engines) and of the aggregation and
    dispatch code of [magneto.cpp], with the properties of the engines
    and of the statistics proved about the embedding.

    Number model.
    - [int] is [Z].  Signed overflow is undefined behaviour in C++; the
      embedding describes the executions in which none occurs.
    - [char] (the element type of [LatticeType]) is [Z]; a store of an
      [int] into a [char] goes through [to_char], the signed 8-bit wrap.
    - [double] is [R]: rounding, infinities and NaN are not modelled.
      A comparison of two doubles is the decision of [<] on [R].
      The theorems identify a computed double with the real number of
      its formula; where a sign or an equation of reals is stated that
      rounding can break, the statement says that it is over the reals.
    - An access [v[i]] outside of a vector is undefined behaviour; the
      accessors return [None] there and every operation is in the
      [option] monad. *)

From Stdlib Require Import ZArith List Reals Lra Lia.
From stdpp Require Import base option list list_numbers sets.

Open Scope Z_scope.

(** ** Numbers *)

#[global] Instance Rlt_decision (a b : R) : Decision (a < b)%R := Rlt_dec a b.

(** [a < b] on doubles, as a boolean. *)
Definition Rltb (a b : R) : bool := bool_decide (a < b)%R.

(** Conversion of an [int] to [char] (signed, 8 bits). *)
Definition to_char (z : Z) : Z := (z + 128) `mod` 256 - 128.

(** Conversion of a [bool] to [char]. *)
Definition char_of_bool (b : bool) : Z := if b then 1 else 0.

(** ** Vectors and lattices *)

(** [std::vector<std::vector<char>>] *)
Abbreviation LatticeType := (list (list Z)).

(** [v[i]] for an [int] index. *)
Definition vec_at {A : Type} (v : list A) (i : Z) : option A :=
  if bool_decide (0 ≤ i) then v !! Z.to_nat i else None.

(** [grid[x][y]] read. *)
Definition at2 (grid : LatticeType) (x y : Z) : option Z :=
  row ← vec_at grid x; vec_at row y.

(** [grid[x][y] = v] *)
Definition store2 (grid : LatticeType) (x y v : Z) : option LatticeType :=
  row ← vec_at grid x;
  _ ← vec_at row y;
  Some (<[Z.to_nat x := <[Z.to_nat y := v]> row]> grid).

(** [grid[x][y] *= -1]: the product is computed on [int] and stored
    back as [char]. *)
Definition negate_at (grid : LatticeType) (x y : Z) : option LatticeType :=
  s ← at2 grid x y; store2 grid x y (to_char (s * -1)).

(** [grid.assign(L, std::vector<char>(L, v))] *)
Definition assign2 (L : Z) (v : Z) : LatticeType :=
  replicate (Z.to_nat L) (replicate (Z.to_nat L) v).

(** [static_cast<int>(lattice.size())] *)
Definition size_of {A : Type} (v : list A) : Z := Z.of_nat (length v).

(** A loop [for (x : xs) body] over a state, stopping at the first
    undefined step. *)
Fixpoint for_each {A St : Type} (body : A → St → option St) (xs : list A) (s : St)
    : option St :=
  match xs with
  | [] => Some s
  | x :: xs' => s' ← body x s; for_each body xs' s'
  end.

(** ** Exponential cache *)

Definition get_exp_buffer_offset (J : Z) : Z :=
  if bool_decide (J > 0) then 8 * J else -8 * J.

(** The loop [for (dE = 0; dE < value_count; ++dE) push_back(...)]
    builds the vector of the values at [0, 1, ..., value_count - 1]; it
    does not run when [value_count <= 0]. *)
Definition get_cached_exp_values (J : Z) (T : R) : list R :=
  let min_value := -8 * J in
  let max_value := 8 * J in
  let value_count := max_value - min_value + 1 in
  let buffer_offset := get_exp_buffer_offset J in
  (λ dE : Z, exp (IZR (- (dE - buffer_offset)) / T)) <$> seqZ 0 value_count.

(** ** Metropolis engine *)

(** The members of [magneto::Metropolis]; the two buffers hold the
    batches that [get_buffer()] returns during one [run]. *)
Record Metropolis := {
  m_cached_exp_values : list R;
  m_J : Z;
  m_lattice_index_buffer : list (Z * Z);
  m_random_buffer : list R
}.

(** The constructor, given the two batches that the buffers deliver. *)
Definition Metropolis_new (J : Z) (T : R) (indices : list (Z * Z))
    (randoms : list R) : Metropolis :=
  {| m_cached_exp_values := get_cached_exp_values J T;
     m_J := J;
     m_lattice_index_buffer := indices;
     m_random_buffer := randoms |}.

Section MetropolisRun.
(** [get_dE] is declared in [IsingSystem.h] and defined in another
    translation unit; the engine is parametric in it. *)
Variable get_dE : LatticeType → Z → Z → Z.

(** The condition [dE <= 0 || random[i] < m_cached_exp_values[dE + offset]];
    [||] does not evaluate its right operand when the left one holds. *)
Definition Metropolis_accepts (m : Metropolis) (dE : Z) (u : R) : option bool :=
  let buffer_offset := get_exp_buffer_offset (m_J m) in
  if bool_decide (dE ≤ 0) then Some true
  else e ← vec_at (m_cached_exp_values m) (dE + buffer_offset); Some (Rltb u e).

(** The body of the loop of [Metropolis::run] at index [i]. *)
Definition Metropolis_proposal (m : Metropolis) (i : nat) (lattice : LatticeType)
    : option LatticeType :=
  '(flip_i, flip_j) ← m_lattice_index_buffer m !! i;
  let dE := m_J m * get_dE lattice flip_i flip_j in
  u ← m_random_buffer m !! i;
  a ← Metropolis_accepts m dE u;
  if a : bool then negate_at lattice flip_i flip_j else Some lattice.

(** The first [k] iterations of the loop. *)
Definition Metropolis_proposals (m : Metropolis) (k : nat) (lattice : LatticeType)
    : option LatticeType :=
  for_each (Metropolis_proposal m) (seq 0 k) lattice.

(** [Metropolis::run]: the loop runs over the indices of the random
    buffer.  The refills that end it replace the two batches and do
    not touch the lattice. *)
Definition Metropolis_run (m : Metropolis) (lattice : LatticeType)
    : option LatticeType :=
  Metropolis_proposals m (length (m_random_buffer m)) lattice.
End MetropolisRun.

(** ** Swendsen-Wang engine *)

(** The members of [magneto::SW]; the three buffers hold the batches
    that [get_buffer()] returns during one [run]. *)
Record SW := {
  sw_m_J : Z;
  sw_m_T : R;
  m_bond_north_buffer : list R;
  m_bond_east_buffer : list R;
  m_flip_buffer : list R
}.

(** [1.0 - exp(-2.0f * m_J / m_T)] *)
Definition freezeProbability (s : SW) : R :=
  (1 - exp (-2 * IZR (sw_m_J s) / sw_m_T s))%R.

Record Bonds := {
  doesBondNorth : LatticeType;
  doesBondEast : LatticeType
}.

(** The body of the first pair of loops at [(i, j)], on the two bond
    lattices and [counter]. *)
Definition bond_site (s : SW) (i j : Z) (st : Bonds * Z) : option (Bonds * Z) :=
  let '(b, counter) := st in
  un ← vec_at (m_bond_north_buffer s) counter;
  north ← store2 (doesBondNorth b) i j
            (char_of_bool (Rltb un (freezeProbability s)));
  ue ← vec_at (m_bond_east_buffer s) counter;
  east ← store2 (doesBondEast b) i j
            (char_of_bool (Rltb ue (freezeProbability s)));
  Some ({| doesBondNorth := north; doesBondEast := east |}, counter + 1).

(** The first pair of loops of [SW::run]. *)
Definition SW_bonds (s : SW) (L : Z) : option Bonds :=
  r ← for_each (λ i, for_each (bond_site s i) (seqZ 0 L)) (seqZ 0 L)
        ({| doesBondNorth := assign2 L 0; doesBondEast := assign2 L 0 |}, 0);
  Some r.1.

(** The state of the second pair of loops.  [found] and [flipped] are
    ghost fields: the sites in the order in which
    [discovered[..][..] = 1], respectively [lattice[x][y] *= -1], is
    executed. *)
Record Scan := {
  lattice : LatticeType;
  discovered : LatticeType;
  deq : list (Z * Z);
  found : list (Z * Z);
  flipped : list (Z * Z)
}.

Inductive Direction := North | East | South | West.

(** [(nx, ny)] in each of the four blocks of the [while] loop; [%] is
    the truncating remainder of C++. *)
Definition neighbour (L x y : Z) (d : Direction) : Z * Z :=
  match d with
  | North => (x, (y + 1) `rem` L)
  | East => ((x + 1) `rem` L, y)
  | South => (x, (y - 1 + L) `rem` L)
  | West => ((x - 1 + L) `rem` L, y)
  end.

(** The bond flag read in each block: [doesBondNorth[x][y]],
    [doesBondEast[x][y]], [doesBondNorth[x][ny]], [doesBondEast[nx][y]]. *)
Definition consulted_bond (b : Bonds) (L x y : Z) (d : Direction) : option Z :=
  match d with
  | North => at2 (doesBondNorth b) x y
  | East => at2 (doesBondEast b) x y
  | South => at2 (doesBondNorth b) x (neighbour L x y South).2
  | West => at2 (doesBondEast b) (neighbour L x y West).1 y
  end.

(** One block: [if (lattice[x][y] == lattice[nx][ny] &&
    discovered[nx][ny] == 0 && bond) { push_back; discovered = 1; }],
    with the operands of [&&] read from left to right. *)
Definition examine (b : Bonds) (L x y : Z) (d : Direction) (st : Scan)
    : option Scan :=
  let '(nx, ny) := neighbour L x y d in
  s ← at2 (lattice st) x y;
  sn ← at2 (lattice st) nx ny;
  if bool_decide (s = sn) then
    dn ← at2 (discovered st) nx ny;
    if bool_decide (dn = 0) then
      bond ← consulted_bond b L x y d;
      if bool_decide (bond ≠ 0) then
        disc ← store2 (discovered st) nx ny 1;
        Some {| lattice := lattice st; discovered := disc;
                deq := deq st ++ [(nx, ny)];
                found := found st ++ [(nx, ny)];
                flipped := flipped st |}
      else Some st
    else Some st
  else Some st.

(** [if (flipCluster) lattice[x][y] *= -1;] *)
Definition flip_site (flipCluster : bool) (x y : Z) (st : Scan) : option Scan :=
  if flipCluster then
    lat ← negate_at (lattice st) x y;
    Some {| lattice := lat; discovered := discovered st; deq := deq st;
            found := found st; flipped := flipped st ++ [(x, y)] |}
  else Some st.

(** [deq.pop_front()] *)
Definition pop_front (st : Scan) : Scan :=
  {| lattice := lattice st; discovered := discovered st; deq := tail (deq st);
     found := found st; flipped := flipped st |}.

(** [while (!deq.empty()) { ... }], at most [fuel] iterations. *)
Fixpoint grow_cluster (fuel : nat) (b : Bonds) (L : Z) (flipCluster : bool)
    (st : Scan) : option Scan :=
  match deq st with
  | [] => Some st
  | (x, y) :: _ =>
    match fuel with
    | O => None
    | S fuel' =>
      st1 ← examine b L x y North st;
      st2 ← examine b L x y East st1;
      st3 ← examine b L x y South st2;
      st4 ← examine b L x y West st3;
      st5 ← flip_site flipCluster x y st4;
      grow_cluster fuel' b L flipCluster (pop_front st5)
    end
  end.

(** [m_flip_buffer.get_buffer()[counter] < 0.5] *)
Definition flip_coin (s : SW) (counter : Z) : option bool :=
  u ← vec_at (m_flip_buffer s) counter; Some (Rltb u (1 / 2)).

(** The body of the second pair of loops at [(i, j)]; [coin] is the
    decision read at [counter], [flip_coin s] in [SW::run]. *)
Definition scan_site (fuel : nat) (coin : Z → option bool) (b : Bonds) (L : Z)
    (i j : Z) (st : Scan * Z) : option (Scan * Z) :=
  let '(sc, counter) := st in
  d ← at2 (discovered sc) i j;
  sc' ← (if bool_decide (d = 0) then
           flipCluster ← coin counter;
           disc ← store2 (discovered sc) i j 1;
           grow_cluster fuel b L flipCluster
             {| lattice := lattice sc; discovered := disc; deq := [(i, j)];
                found := found sc ++ [(i, j)]; flipped := flipped sc |}
         else Some sc);
  Some (sc', counter + 1).

(** The second pair of loops. *)
Definition scan (fuel : nat) (coin : Z → option bool) (b : Bonds) (L : Z)
    (lat : LatticeType) : option Scan :=
  r ← for_each (λ i, for_each (scan_site fuel coin b L i) (seqZ 0 L)) (seqZ 0 L)
        ({| lattice := lat; discovered := assign2 L 0; deq := [];
            found := []; flipped := [] |}, 0);
  Some r.1.

(** [SW::run] with every [while] loop bounded by [fuel]. *)
Definition SW_run_fuel (fuel : nat) (s : SW) (lat : LatticeType) : option Scan :=
  let L := size_of lat in
  b ← SW_bonds s L;
  scan fuel (flip_coin s) b L lat.

(** [SW::run].  A site enters the queue when it is discovered and every
    iteration of a [while] loop pops one, so [L * L] iterations are
    enough for each loop ([SW_run_total] below).  The refills that end
    the function replace the three batches and do not touch the lattice. *)
Definition SW_run (s : SW) (lat : LatticeType) : option Scan :=
  SW_run_fuel (Z.to_nat (size_of lat * size_of lat)) s lat.

(** ** Measurement and aggregation *)

(** The element type of the vector [properties] of
    [get_physical_results]: [magneto.cpp] reads its fields [energy] and
    [magnetization]. *)
Record PhysicalMeasurement := {
  energy : R;
  magnetization : R
}.

Record PhysicsResult := {
  temp : R;
  res_energy : R;
  cv : R;
  res_magnetization : R;
  chi : R
}.

(** What the template [get_mean] asks of its element type: [T()],
    [operator+] and [operator/] by an [int]. *)
Class Averageable (T : Type) := {
  avg_zero : T;
  avg_add : T → T → T;
  avg_div : T → Z → T
}.

#[global] Instance double_averageable : Averageable R :=
  {| avg_zero := 0%R; avg_add := Rplus; avg_div := λ a d, (a / IZR d)%R |}.

(** Modelled from the spec: [operator+] and [operator/] of the
    measurements are declared in [IsingSystem.h] and defined elsewhere;
    the spec has them as elementwise addition and scalar division. *)
#[global] Instance measurement_averageable : Averageable PhysicalMeasurement :=
  {| avg_zero := {| energy := 0; magnetization := 0 |};
     avg_add := λ a b, {| energy := energy a + energy b;
                          magnetization := magnetization a + magnetization b |};
     avg_div := λ a d, {| energy := energy a / IZR d;
                          magnetization := magnetization a / IZR d |} |}.

(** [std::accumulate(first, last, init, op)] *)
Definition accumulate {A B : Type} (op : B → A → B) (values : list A) (init : B) : B :=
  fold_left op values init.

Definition get_mean {T : Type} `{Averageable T} (values : list T) : T :=
  let sum := accumulate avg_add values avg_zero in
  avg_div sum (size_of values).

(** [get_squared_mean] is instantiated at [double] only. *)
Definition get_squared_mean (values : list R) : R :=
  let square_op := λ init elem : R, (init + elem * elem)%R in
  let sum := accumulate square_op values 0%R in
  (sum / IZR (size_of values))%R.

Definition get_variance (values : list R) : R :=
  let mean := get_mean values in
  (get_squared_mean values - mean * mean)%R.

Definition get_energies (properties : list PhysicalMeasurement) : list R :=
  energy <$> properties.

Definition get_mags (properties : list PhysicalMeasurement) : list R :=
  magnetization <$> properties.

Definition get_energy_variance (properties : list PhysicalMeasurement) : R :=
  get_variance (get_energies properties).

Definition get_mag_variance (properties : list PhysicalMeasurement) : R :=
  get_variance (get_mags properties).

(** The part of [get_physical_results] after the comment
    [// compute results]. *)
Definition compute_results (T : R) (m_L : Z) (properties : list PhysicalMeasurement)
    : PhysicsResult :=
  let mean_properties := get_mean properties in
  let e_mean := energy mean_properties in
  let m_mean := magnetization mean_properties in
  let cv := (get_energy_variance properties * IZR m_L * IZR m_L / (T * T))%R in
  let chi := (get_mag_variance properties * IZR m_L * IZR m_L / T)%R in
  {| temp := T; res_energy := e_mean; cv := cv; res_magnetization := m_mean;
     chi := chi |}.

(** ** Jobs and their dispatch *)

Inductive Algorithm := Metropolis_alg | SW_alg.
Inductive TempStartMode := Single | Many | Image.
(** The enumeration of [Job.h]: [magneto.cpp] tests [m_mode] against
    [Movie] and [Intervals], [OtherMode] stands for any other value. *)
Inductive ImageOrMovie := Movie | Intervals | OtherMode.
Inductive Imager := MovieWriter | IntervalWriter.
(** The two engine objects of [get_physical_results]. *)
Inductive EngineObject := wang | algorithm.

(** The fields of [magneto::Job] that [magneto.cpp] reads
    ([m_image_mode] for [m_image_mode.m_mode]). *)
Record Job := {
  m_L : Z;
  m_algorithm : Algorithm;
  m_temp_mode : TempStartMode;
  m_t_min : R;
  m_t_max : R;
  m_temp_steps : Z;
  m_t_single : R;
  m_n : Z;
  m_start_runs : Z;
  m_image_mode : ImageOrMovie
}.

(** [for (unsigned int i = 1; i < count; ++i) body]: the number of
    iterations. *)
Definition iterations_from_one (count : Z) : nat := Z.to_nat (count - 1).

Fixpoint get_temps_from (n : nat) (temperature temperature_step : R) : list R :=
  match n with
  | O => []
  | S n' => temperature :: get_temps_from n' (temperature + temperature_step) temperature_step
  end.

Definition get_temps (tmin tmax : R) (n : Z) : list R :=
  get_temps_from (Z.to_nat n) tmin ((tmax - tmin) / IZR (n - 1)).

(** [2.0 / (log(1.0 + sqrt(2.0)))] *)
Definition get_Tc : R := (2 / ln (1 + sqrt 2))%R.

Section Driver.
(** Collaborators of [get_physical_results] from other translation
    units: the constructor of [IsingSystem] (a random lattice of side
    [L]), [get_properties], and the engines as objects with their
    buffers: [engine_run o a J T L k lat] is what the call number [k]
    of [run] of the object [o], an engine of class [a] constructed
    with [(J, T, L)], makes of [lat]. *)
Variable IsingSystem_new : Z → R → Z → LatticeType.
Variable get_properties : LatticeType → PhysicalMeasurement.
Variable engine_run :
  EngineObject → Algorithm → Z → R → Z → nat → LatticeType → option LatticeType.

(** [for (i = 1; i < m_start_runs; ++i) wang.run(lattice)] *)
Fixpoint warmup (J : Z) (T : R) (L : Z) (k count : nat) (lat : LatticeType)
    : option LatticeType :=
  match count with
  | O => Some lat
  | S count' =>
    lat' ← engine_run wang SW_alg J T L k lat; warmup J T L (S k) count' lat'
  end.

(** [for (i = 1; i < m_n; ++i) { snapshot; properties.emplace_back;
    algorithm.run }]; the snapshot of the image writer has no effect on
    the lattice or on [properties]. *)
Fixpoint main_iterations (TAlg : Algorithm) (J : Z) (T : R) (L : Z) (k count : nat)
    (lat : LatticeType) (properties : list PhysicalMeasurement)
    : option (LatticeType * list PhysicalMeasurement) :=
  match count with
  | O => Some (lat, properties)
  | S count' =>
    let properties' := properties ++ [get_properties lat] in
    lat' ← engine_run algorithm TAlg J T L k lat;
    main_iterations TAlg J T L (S k) count' lat' properties'
  end.

(** [get_physical_results<TAlg, TImager>(T, job)] *)
Definition get_physical_results (TAlg : Algorithm) (TImager : Imager) (T : R)
    (job : Job) : option PhysicsResult :=
  let J := 1 in
  let system := IsingSystem_new J T (m_L job) in
  system' ← warmup J T (m_L job) 0 (iterations_from_one (m_start_runs job)) system;
  r ← main_iterations TAlg J T (m_L job) 0 (iterations_from_one (m_n job)) system' [];
  Some (compute_results T (m_L job) r.2).

(** [run_job<TAlg, TImager>(temps, job)]: one result per temperature. *)
Definition run_job_temps (TAlg : Algorithm) (TImager : Imager) (temps : list R)
    (job : Job) : list (option PhysicsResult) :=
  (λ t, get_physical_results TAlg TImager t job) <$> temps.

(** [run_job<TAlg, TImager>(job)]; the [Image] mode logs an error and
    runs nothing. *)
Definition run_job_imager (TAlg : Algorithm) (TImager : Imager) (job : Job)
    : list (option PhysicsResult) :=
  match m_temp_mode job with
  | Image => []
  | Many =>
    let stepped_temps := get_temps (m_t_min job) (m_t_max job) (m_temp_steps job) in
    run_job_temps TAlg TImager stepped_temps job
  | Single => run_job_temps TAlg TImager [m_t_single job] job
  end.

(** [run_job<TAlg>(job)] *)
Definition run_job_alg (TAlg : Algorithm) (job : Job) : list (option PhysicsResult) :=
  match m_image_mode job with
  | Movie => run_job_imager Metropolis_alg MovieWriter job
  | Intervals => run_job_imager Metropolis_alg IntervalWriter job
  | OtherMode => []
  end.

(** [run_job(job)] *)
Definition run_job (job : Job) : list (option PhysicsResult) :=
  match m_algorithm job with
  | Metropolis_alg => run_job_alg Metropolis_alg job
  | SW_alg => run_job_alg SW_alg job
  end.
End Driver.

(** * The vocabulary of the properties *)

(** ** Lattices *)

(** [grid] has [L] rows of [L] entries. *)
Definition square (L : Z) (grid : LatticeType) : Prop :=
  size_of grid = L ∧ Forall (λ row, size_of row = L) grid.

(** Every entry of [grid] is a spin. *)
Definition spins (grid : LatticeType) : Prop :=
  Forall (Forall (λ s, s = 1 ∨ s = -1)) grid.

(** A square lattice of side [L] whose entries are spins. *)
Definition spin_lattice (L : Z) (grid : LatticeType) : Prop :=
  square L grid ∧ spins grid.

(** [(x, y)] is a site of a lattice of side [L]. *)
Definition site (L : Z) (p : Z * Z) : Prop :=
  0 ≤ p.1 < L ∧ 0 ≤ p.2 < L.

(** The sites of a lattice of side [L], in row-major order. *)
Definition all_sites (L : Z) : list (Z * Z) := list_prod (seqZ 0 L) (seqZ 0 L).

(** Row-major order on sites: [(i', j')] is visited before the site
    number [j] of row [i]. *)
Definition before (i j : Z) (p : Z * Z) : Prop :=
  p.1 < i ∨ (p.1 = i ∧ p.2 < j).

(** ** Metropolis engine *)

(** What [Metropolis_accepts] decides, as a proposition. *)
Definition accepted (m : Metropolis) (dE : Z) (u : R) : Prop :=
  dE ≤ 0 ∨
  ∃ e, vec_at (m_cached_exp_values m) (dE + 8 * Z.abs (m_J m)) = Some e ∧ (u < e)%R.

(** Modelled from the spec: [get_dE], declared in [IsingSystem.h] and
    defined in another translation unit.  The spec has it as the
    standard nearest-neighbour Ising delta, an integer in [-8, 8]: the
    spin at the site times the sum of the spins of its four periodic
    neighbours, twice.  It instantiates the parameter [get_dE] of the
    engine in the examples. *)
Definition local_energy_delta (grid : LatticeType) (i j : Z) : Z :=
  let L := size_of grid in
  let spin x y := default 0 (at2 grid x y) in
  2 * spin i j * (spin i ((j + 1) `rem` L) + spin ((i + 1) `rem` L) j +
                  spin i ((j - 1 + L) `rem` L) + spin ((i - 1 + L) `rem` L) j).

(** ** Swendsen-Wang engine *)

(** The flag that the first pair of loops stores for the site of
    row-major position [k], from the buffer [buffer]. *)
Definition bond_flag (s : SW) (buffer : list R) (k : Z) : option Z :=
  u ← vec_at buffer k; Some (char_of_bool (Rltb u (freezeProbability s))).

(** The state of the first pair of loops when it reaches the site
    [j] of row [i]. *)
Definition bonds_inv (s : SW) (L : Z) (i j : Z) (st : Bonds * Z) : Prop :=
  square L (doesBondNorth st.1) ∧ square L (doesBondEast st.1) ∧
  st.2 = i * L + j ∧
  ∀ x y, site L (x, y) → before i j (x, y) →
    at2 (doesBondNorth st.1) x y = bond_flag s (m_bond_north_buffer s) (x * L + y) ∧
    at2 (doesBondEast st.1) x y = bond_flag s (m_bond_east_buffer s) (x * L + y).

(** The spin that the run leaves at [(x, y)], from the lattice [lat0]
    it started with and the sites negated so far. *)
Definition spin_after (lat0 : LatticeType) (negated : list (Z * Z)) (x y : Z)
    : option Z :=
  s ← at2 lat0 x y;
  Some (if decide ((x, y) ∈ negated) then to_char (s * -1) else s).

(** The invariant of the second pair of loops and of the [while]
    loop inside: [discovered] marks the sites of [found], no site is
    found twice, the queue is the end of [found] that is not yet
    popped, and the negated sites are among the popped ones, in their
    order. *)
Definition scan_inv (L : Z) (lat0 : LatticeType) (st : Scan) : Prop :=
  square L (lattice st) ∧ square L (discovered st) ∧
  NoDup (found st) ∧ Forall (site L) (found st) ∧
  (∀ x y, site L (x, y) →
     at2 (discovered st) x y = Some (if decide ((x, y) ∈ found st) then 1 else 0)) ∧
  (∃ popped, found st = popped ++ deq st ∧ flipped st `sublist_of` popped) ∧
  (∀ x y, site L (x, y) → at2 (lattice st) x y = spin_after lat0 (flipped st) x y).

(** The state of the second pair of loops when it reaches the site
    [j] of row [i]: the queue is empty and the sites before it are
    found. *)
Definition scan_at (L : Z) (lat0 : LatticeType) (i j : Z) (st : Scan * Z) : Prop :=
  scan_inv L lat0 st.1 ∧ deq st.1 = [] ∧ st.2 = i * L + j ∧
  ∀ p, site L p → before i j p → p ∈ found st.1.

Definition opposite (d : Direction) : Direction :=
  match d with
  | North => South
  | East => West
  | South => North
  | West => East
  end.

(** [a] would admit [c]: a block of the [while] loop at the site [a]
    looks at [c] and the bond flag that it reads is set. *)
Definition admits (b : Bonds) (L : Z) (a c : Z * Z) : Prop :=
  ∃ d flag, neighbour L a.1 a.2 d = c ∧
    consulted_bond b L a.1 a.2 d = Some flag ∧ flag ≠ 0.

(** [a] and [c] are joined: they held equal spins in the lattice
    [lat0] the run started with and [a] would admit [c]. *)
Definition joined (b : Bonds) (L : Z) (lat0 : LatticeType) (a c : Z * Z) : Prop :=
  admits b L a c ∧ at2 lat0 a.1 a.2 = at2 lat0 c.1 c.2.

(** [p] is negated already, or it waits in the queue of a cluster that
    flips. *)
Definition flips (flipCluster : bool) (st : Scan) (p : Z * Z) : Prop :=
  p ∈ flipped st ∨ (flipCluster = true ∧ p ∈ deq st).

(** The invariant of the [while] loop for the clusters: the sites
    joined to a popped site are found, and two found sites that are
    joined flip together. *)
Definition cluster_inv (b : Bonds) (L : Z) (lat0 : LatticeType) (flipCluster : bool)
    (st : Scan) : Prop :=
  scan_inv L lat0 st ∧
  (∀ p n, p ∈ found st → p ∉ deq st → joined b L lat0 p n → n ∈ found st) ∧
  (∀ p n, p ∈ found st → n ∈ found st → joined b L lat0 p n →
     flips flipCluster st p ↔ flips flipCluster st n).

(** The state of the second pair of loops at the site [j] of row [i]
    when no bond is frozen: the sites found are the sites before it,
    and those negated are the found ones whose own decision, read at
    the index of the site, is to flip. *)
Definition uncoupled_at (coin : Z → option bool) (L : Z) (lat0 : LatticeType)
    (i j : Z) (st : Scan * Z) : Prop :=
  scan_at L lat0 i j st ∧
  (∀ p, p ∈ found st.1 → before i j p) ∧
  (∀ x y, (x, y) ∈ flipped st.1 ↔
     (x, y) ∈ found st.1 ∧ coin (x * L + y) = Some true).

(** ** Measurement and aggregation *)

(** The formulas of the specification: the sum of a sequence, its mean
    [E[x]], the variance by the second moment [E[x²] - E[x]²], and the
    two observables derived from it. *)
Definition Rsum (xs : list R) : R := foldr Rplus 0%R xs.

Definition expectation (xs : list R) : R := (Rsum xs / IZR (size_of xs))%R.

Definition second_moment_variance (xs : list R) : R :=
  (expectation ((λ x, x * x) <$> xs) - expectation xs * expectation xs)%R.

Definition specific_heat (T : R) (L : Z) (energies : list R) : R :=
  (second_moment_variance energies * (IZR L * IZR L) / (T * T))%R.

Definition susceptibility (T : R) (L : Z) (magnetizations : list R) : R :=
  (second_moment_variance magnetizations * (IZR L * IZR L) / T)%R.

(** The mean of the squared deviations from the mean. *)
Definition mean_square_deviation (xs : list R) : R :=
  expectation ((λ x, (x - expectation xs) * (x - expectation xs))%R <$> xs).

(** ** Concrete inputs *)

(** A job with a single temperature that selects an algorithm: a
    lattice of side 2 at [T = 2], no warm-up run, two main iterations,
    movie output. *)
Definition job_selecting (a : Algorithm) : Job :=
  {| m_L := 2; m_algorithm := a; m_temp_mode := Single;
     m_t_min := 1; m_t_max := 3; m_temp_steps := 3; m_t_single := 2;
     m_n := 3; m_start_runs := 1; m_image_mode := Movie |}.

(** The checkerboard of side 2 and what [Metropolis::run] makes of it
    with the single proposal [(0, 0)]: every neighbour of the site is
    opposite, [dE = -8], the flip is accepted. *)
Definition checkerboard : LatticeType := [[1; -1]; [-1; 1]].
Definition checkerboard_flipped : LatticeType := [[-1; -1]; [-1; 1]].
Definition metropolis_example : Metropolis := Metropolis_new 1 2 [(0, 0)] [0%R].

(** An engine for a lattice of side 2: coupling 1, temperature 2. *)
Definition sw_example : SW :=
  {| sw_m_J := 1; sw_m_T := 2;
     m_bond_north_buffer := [0; 1; 0; 1]%R;
     m_bond_east_buffer := [1; 0; 1; 0]%R;
     m_flip_buffer := [0; 1; 0; 1]%R |}.

(** The bonds that [sw_example] freezes (see [SW_bonds_example]). *)
Definition sw_example_bonds : Bonds :=
  {| doesBondNorth := [[1; 0]; [1; 0]]; doesBondEast := [[0; 1]; [0; 1]] |}.

(** The aligned lattice of side 2, and an engine with two proposals
    for it. *)
Definition uniform : LatticeType := [[1; 1]; [1; 1]].
Definition metropolis_uniform : Metropolis :=
  Metropolis_new 1 2 [(0, 0); (1, 1)] [0; 1]%R.

(** Engines for a lattice of side 2 whose flip reals are all at least
    0.5, all below 0.5, and an engine without coupling. *)
Definition sw_keeping : SW :=
  {| sw_m_J := 1; sw_m_T := 2;
     m_bond_north_buffer := [0; 1; 0; 1]%R;
     m_bond_east_buffer := [1; 0; 1; 0]%R;
     m_flip_buffer := [1 / 2; 1; 3 / 4; 1]%R |}.
Definition sw_flipping : SW :=
  {| sw_m_J := 1; sw_m_T := 2;
     m_bond_north_buffer := [0; 1; 0; 1]%R;
     m_bond_east_buffer := [1; 0; 1; 0]%R;
     m_flip_buffer := [0; 1 / 4; 0; 1 / 3]%R |}.
Definition sw_uncoupled : SW :=
  {| sw_m_J := 0; sw_m_T := 2;
     m_bond_north_buffer := [0; 1; 0; 1]%R;
     m_bond_east_buffer := [1; 0; 1; 0]%R;
     m_flip_buffer := [0; 1; 0; 1]%R |}.

(** Collaborators for a run of the driver: the aligned lattice as the
    system, its measurement, and engines that leave the lattice as it
    is. *)
Definition aligned_system (J : Z) (T : R) (L : Z) : LatticeType := uniform.
Definition aligned_properties (lat : LatticeType) : PhysicalMeasurement :=
  {| energy := -2; magnetization := 1 |}.
Definition idle_engine (o : EngineObject) (a : Algorithm) (J : Z) (T : R) (L : Z)
    (k : nat) (lat : LatticeType) : option LatticeType := Some lat.

(** * Properties *)

(** ** Numbers *)

Lemma Rltb_true a b : (a < b)%R → Rltb a b = true.
Proof. intros Hlt. unfold Rltb. by apply bool_decide_eq_true_2. Qed.

Lemma Rltb_false a b : (b <= a)%R → Rltb a b = false.
Proof. intros Hle. unfold Rltb. apply bool_decide_eq_false_2. lra. Qed.

(** ** Vectors and lattices *)

Lemma vec_at_Some {A} (v : list A) i a :
  vec_at v i = Some a ↔ 0 ≤ i ∧ v !! Z.to_nat i = Some a.
Proof.
  unfold vec_at. case_bool_decide as Hi.
  - split; [by intros ?|by intros [_ ?]].
  - split; [done|by intros [? _]].
Qed.

Lemma vec_at_is_Some {A} (v : list A) i :
  is_Some (vec_at v i) ↔ 0 ≤ i < size_of v.
Proof.
  unfold vec_at, size_of. case_bool_decide.
  - rewrite lookup_lt_is_Some. lia.
  - split; [intros [? ?]; done | lia].
Qed.

Lemma square_row L grid x row :
  square L grid → vec_at grid x = Some row → size_of row = L.
Proof.
  intros [_ Hrows] [_ Hx]%vec_at_Some.
  rewrite Forall_lookup in Hrows. eauto.
Qed.

Lemma at2_is_Some L grid x y :
  square L grid → is_Some (at2 grid x y) ↔ site L (x, y).
Proof.
  intros Hsq. unfold at2, site; simpl. split.
  - intros [s Hs]. destruct (vec_at grid x) as [row|] eqn:Hrow; [|done].
    simpl in Hs. pose proof (square_row _ _ _ _ Hsq Hrow) as Hlen.
    assert (is_Some (vec_at grid x)) as Hx%vec_at_is_Some by eauto.
    assert (is_Some (vec_at row y)) as Hy%vec_at_is_Some by eauto.
    destruct Hsq as [Hsz _]. lia.
  - intros [Hx Hy]. destruct Hsq as [Hsz Hrows].
    destruct (proj2 (vec_at_is_Some grid x)) as [row Hrow]; [lia|].
    rewrite Hrow. simpl. apply vec_at_is_Some.
    rewrite (square_row L grid x row); [lia| by split |done].
Qed.

Lemma store2_is_Some L grid x y v :
  square L grid → site L (x, y) → is_Some (store2 grid x y v).
Proof.
  intros Hsq Hs. apply (at2_is_Some L grid x y Hsq) in Hs as [s Hs].
  unfold at2 in Hs. unfold store2.
  destruct (vec_at grid x) as [row|]; [|done]. simpl in *.
  rewrite Hs. simpl. eauto.
Qed.

Lemma store2_site L grid x y v grid' :
  square L grid → store2 grid x y v = Some grid' → site L (x, y).
Proof.
  intros Hsq Hst. apply (at2_is_Some L grid x y Hsq).
  unfold store2 in Hst. unfold at2.
  destruct (vec_at grid x) as [row|]; [|done]. simpl in *.
  destruct (vec_at row y); [eauto|done].
Qed.

Lemma store2_square L grid x y v grid' :
  square L grid → store2 grid x y v = Some grid' → square L grid'.
Proof.
  intros [Hsz Hrows] Hst. unfold store2 in Hst.
  destruct (vec_at grid x) as [row|] eqn:Hrow; [|done]. simpl in Hst.
  destruct (vec_at row y); [|done]. simpl in Hst. simplify_eq.
  split.
  - unfold size_of in *. by rewrite length_insert.
  - apply Forall_insert; [done|].
    unfold size_of. rewrite length_insert.
    eapply square_row; [by split|done].
Qed.

Lemma at2_store2 grid x y v grid' x' y' :
  0 ≤ x' → 0 ≤ y' →
  store2 grid x y v = Some grid' →
  at2 grid' x' y' = if decide ((x', y') = (x, y)) then Some v else at2 grid x' y'.
Proof.
  intros Hx' Hy' Hst. unfold store2 in Hst.
  destruct (vec_at grid x) as [row|] eqn:Hrow; [|done]. simpl in Hst.
  destruct (vec_at row y) as [old|] eqn:Hold; [|done]. simpl in Hst.
  injection Hst as <-.
  apply vec_at_Some in Hrow as [Hx Hrow]. apply vec_at_Some in Hold as [Hy Hold].
  unfold at2, vec_at. rewrite !bool_decide_eq_true_2 by done.
  destruct (decide (x' = x)) as [->|Hne].
  - rewrite list_lookup_insert_eq by (by eapply lookup_lt_Some). simpl.
    destruct (decide (y' = y)) as [->|Hney].
    + rewrite list_lookup_insert_eq by (by eapply lookup_lt_Some).
      by rewrite decide_True.
    + rewrite list_lookup_insert_ne by lia.
      rewrite decide_False by congruence. by rewrite Hrow.
  - rewrite list_lookup_insert_ne by lia.
    rewrite decide_False by congruence. done.
Qed.

Lemma at2_negative grid x y : ¬ (0 ≤ x ∧ 0 ≤ y) → at2 grid x y = None.
Proof.
  intros Hneg. unfold at2.
  destruct (vec_at grid x) as [row|] eqn:Hrow; [|done]. simpl.
  apply vec_at_Some in Hrow as [Hx _].
  unfold vec_at. rewrite bool_decide_eq_false_2; [done|lia].
Qed.

Lemma at2_store2_eq grid x y v grid' :
  store2 grid x y v = Some grid' → at2 grid' x y = Some v.
Proof.
  intros Hst. assert (0 ≤ x ∧ 0 ≤ y) as [Hx Hy].
  { unfold store2 in Hst. destruct (vec_at grid x) as [row|] eqn:Hrow; [|done].
    simpl in Hst. destruct (vec_at row y) eqn:Hy; [|done].
    apply vec_at_Some in Hrow, Hy. lia. }
  rewrite (at2_store2 _ _ _ _ _ _ _ Hx Hy Hst). by rewrite decide_True.
Qed.

Lemma at2_store2_ne grid x y v grid' x' y' :
  (x', y') ≠ (x, y) → store2 grid x y v = Some grid' →
  at2 grid' x' y' = at2 grid x' y'.
Proof.
  intros Hne Hst.
  destruct (decide (0 ≤ x' ∧ 0 ≤ y')) as [[Hx Hy]|Hneg].
  - rewrite (at2_store2 _ _ _ _ _ _ _ Hx Hy Hst). by rewrite decide_False.
  - by rewrite !at2_negative.
Qed.

Lemma spins_at2 grid x y s :
  spins grid → at2 grid x y = Some s → s = 1 ∨ s = -1.
Proof.
  intros Hsp Hat. unfold at2 in Hat.
  destruct (vec_at grid x) as [row|] eqn:Hrow; [|done]. simpl in Hat.
  apply vec_at_Some in Hrow as [_ Hrow]. apply vec_at_Some in Hat as [_ Hat].
  unfold spins in Hsp. rewrite Forall_lookup in Hsp.
  specialize (Hsp _ _ Hrow). rewrite Forall_lookup in Hsp. eauto.
Qed.

Lemma store2_spins grid x y v grid' :
  spins grid → v = 1 ∨ v = -1 → store2 grid x y v = Some grid' → spins grid'.
Proof.
  intros Hsp Hv Hst. unfold store2 in Hst.
  destruct (vec_at grid x) as [row|] eqn:Hrow; [|done]. simpl in Hst.
  destruct (vec_at row y); [|done]. simpl in Hst. simplify_eq.
  apply vec_at_Some in Hrow as [_ Hrow].
  apply Forall_insert; [done|]. apply Forall_insert; [|done].
  unfold spins in Hsp. rewrite Forall_lookup in Hsp. eauto.
Qed.

Lemma to_char_spin s : s = 1 ∨ s = -1 → to_char (s * -1) = - s.
Proof. intros [->| ->]; reflexivity. Qed.

Lemma negate_at_spec L grid x y s :
  square L grid → at2 grid x y = Some s →
  ∃ grid', negate_at grid x y = Some grid' ∧ square L grid' ∧
    at2 grid' x y = Some (to_char (s * -1)) ∧
    (∀ x' y', (x', y') ≠ (x, y) → at2 grid' x' y' = at2 grid x' y').
Proof.
  intros Hsq Hat. unfold negate_at. rewrite Hat. simpl.
  destruct (store2_is_Some L grid x y (to_char (s * -1)) Hsq) as [grid' Hst].
  { apply (at2_is_Some L grid x y Hsq). eauto. }
  exists grid'. split; [done|]. split; [by eapply store2_square|].
  split; [by eapply at2_store2_eq|].
  intros x' y' Hne. by eapply at2_store2_ne.
Qed.

Lemma negate_at_spins grid x y grid' :
  spins grid → negate_at grid x y = Some grid' → spins grid'.
Proof.
  intros Hsp Hneg. unfold negate_at in Hneg.
  destruct (at2 grid x y) as [s|] eqn:Hat; [|done]. simpl in Hneg.
  pose proof (spins_at2 _ _ _ _ Hsp Hat) as Hs.
  eapply store2_spins; [done| |done].
  rewrite to_char_spin by done. lia.
Qed.

(** ** Loops *)

Lemma for_each_app {A St} (body : A → St → option St) xs ys s :
  for_each body (xs ++ ys) s = for_each body xs s ≫= for_each body ys.
Proof.
  revert s. induction xs as [|x xs IH]; intros s; simpl; [done|].
  destruct (body x s) as [s'|]; simpl; [apply IH|done].
Qed.

(** A loop invariant indexed by the number of iterations done: if every
    iteration is defined and re-establishes it, so is the loop. *)
Lemma for_each_invariant {A St} (P : nat → St → Prop) (body : A → St → option St) xs s :
  P 0%nat s →
  (∀ k a s, xs !! k = Some a → P k s → ∃ s', body a s = Some s' ∧ P (S k) s') →
  ∃ s', for_each body xs s = Some s' ∧ P (length xs) s'.
Proof.
  revert P s. induction xs as [|x xs IH]; intros P s H0 Hstep; simpl.
  - eauto.
  - destruct (Hstep 0%nat x s) as (s1 & -> & H1); [done|done|]. simpl.
    apply (IH (λ k, P (S k))); [done|].
    intros k a s2 Hk. apply (Hstep (S k)). done.
Qed.

(** The same for what holds after every run of the loop that is
    defined. *)
Lemma for_each_preserves {A St} (P : St → Prop) (body : A → St → option St) xs s s' :
  (∀ a s s', a ∈ xs → P s → body a s = Some s' → P s') →
  P s → for_each body xs s = Some s' → P s'.
Proof.
  revert s. induction xs as [|x xs IH]; intros s Hstep H0 Hrun; simpl in Hrun.
  - by simplify_eq.
  - destruct (body x s) as [s1|] eqn:Hb; [|done]. simpl in Hrun.
    eapply (IH s1); [|by eapply Hstep; [left|..]|done].
    intros a s2 s3 Ha. apply Hstep. by right.
Qed.

Lemma for_each_ext {A St} (body body' : A → St → option St) xs s :
  (∀ a s, body a s = body' a s) → for_each body xs s = for_each body' xs s.
Proof.
  intros Hext. revert s. induction xs as [|x xs IH]; intros s; simpl; [done|].
  rewrite Hext. destruct (body' x s); simpl; [apply IH|done].
Qed.

Lemma lookup_seqZ_0 L k a : seqZ 0 L !! k = Some a → a = Z.of_nat k ∧ 0 ≤ a < L.
Proof. intros Hk%lookup_seqZ. lia. Qed.

(** ** Exponential cache *)

Lemma get_exp_buffer_offset_abs J : get_exp_buffer_offset J = 8 * Z.abs J.
Proof. unfold get_exp_buffer_offset. case_bool_decide; lia. Qed.

Lemma get_cached_exp_values_length J T :
  0 ≤ J → size_of (get_cached_exp_values J T) = 16 * J + 1.
Proof.
  intros HJ. unfold get_cached_exp_values, size_of.
  rewrite length_fmap, length_seqZ. lia.
Qed.

(** For a coupling [J >= 0] the table has the entry [exp(-dE / T)] at
    [dE + 8|J|], for every [dE] from [-8J] to [8J]. *)
Lemma get_cached_exp_values_lookup J T dE :
  0 ≤ J → -8 * J ≤ dE ≤ 8 * J →
  vec_at (get_cached_exp_values J T) (dE + 8 * Z.abs J) = Some (exp (- IZR dE / T)).
Proof.
  intros HJ HdE. unfold vec_at. rewrite bool_decide_eq_true_2 by lia.
  unfold get_cached_exp_values. rewrite list_lookup_fmap.
  rewrite lookup_seqZ_lt by lia. simpl.
  rewrite get_exp_buffer_offset_abs. do 3 f_equal.
  rewrite <- opp_IZR. f_equal. lia.
Qed.

(** For a negative coupling [value_count] is negative, the loop does
    not run and the table is empty. *)
Lemma get_cached_exp_values_negative J T :
  J < 0 → get_cached_exp_values J T = [].
Proof.
  intros HJ. unfold get_cached_exp_values, seqZ.
  replace (Z.to_nat (8 * J - -8 * J + 1)) with 0%nat by lia. done.
Qed.

(** C4 (the code at [J = -1], [T = 2]).  The claim asks for a table of
    length [16|J| + 1 = 17] whose entry at [dE + 8|J|] is [exp(-dE / T)];
    the table that the code builds for this coupling is empty, so it has
    no entry at the index [4 + 8] of the energy change [dE = 4]. *)
Theorem get_cached_exp_values_antiferromagnetic :
  get_cached_exp_values (-1) 2 = [] ∧
  size_of (get_cached_exp_values (-1) 2) ≠ 16 * Z.abs (-1) + 1 ∧
  vec_at (get_cached_exp_values (-1) 2) (4 + 8 * Z.abs (-1)) = None.
Proof.
  rewrite get_cached_exp_values_negative by lia. done.
Qed.

(** ** Metropolis engine *)

Section MetropolisProperties.
Variable get_dE : LatticeType → Z → Z → Z.

Lemma Metropolis_proposals_S m k lattice :
  Metropolis_proposals get_dE m (S k) lattice =
  Metropolis_proposals get_dE m k lattice ≫= Metropolis_proposal get_dE m k.
Proof.
  unfold Metropolis_proposals. rewrite seq_S, for_each_app. simpl.
  destruct (for_each _ _ _) as [lat|]; simpl; [|done].
  by destruct (Metropolis_proposal get_dE m k lat).
Qed.

(** A run that is defined went through every shorter sequence of
    proposals. *)
Lemma Metropolis_proposals_prefix m k n lattice :
  (k ≤ n)%nat → is_Some (Metropolis_proposals get_dE m n lattice) →
  is_Some (Metropolis_proposals get_dE m k lattice).
Proof.
  induction 1 as [|n Hle IH]; [done|].
  rewrite Metropolis_proposals_S. intros [lat Hlat]. apply IH.
  destruct (Metropolis_proposals get_dE m n lattice); [eauto|done].
Qed.

Lemma Metropolis_accepts_spec m dE u a :
  Metropolis_accepts m dE u = Some a → (a = true ↔ accepted m dE u).
Proof.
  unfold Metropolis_accepts, accepted. rewrite get_exp_buffer_offset_abs.
  case_bool_decide as HdE.
  - intros [= <-]. naive_solver.
  - destruct (vec_at _ _) as [e|]; simpl; [|done]. intros [= <-].
    unfold Rltb. rewrite bool_decide_eq_true. split.
    + intros Hu. right. eauto.
    + intros [?|(e' & [= <-] & Hu)]; [lia|done].
Qed.

Lemma Metropolis_proposal_spins m i lattice lat' :
  spins lattice → Metropolis_proposal get_dE m i lattice = Some lat' → spins lat'.
Proof.
  intros Hsp Hp. unfold Metropolis_proposal in Hp.
  destruct (m_lattice_index_buffer m !! i) as [[fi fj]|]; [|done]. simpl in Hp.
  destruct (m_random_buffer m !! i) as [u|]; [|done]. simpl in Hp.
  destruct (Metropolis_accepts _ _ _) as [[]|]; simpl in Hp; [|by simplify_eq|done].
  by eapply negate_at_spins.
Qed.

Lemma Metropolis_proposal_square L m i lattice lat' :
  square L lattice → Metropolis_proposal get_dE m i lattice = Some lat' →
  square L lat'.
Proof.
  intros Hsq Hp. unfold Metropolis_proposal in Hp.
  destruct (m_lattice_index_buffer m !! i) as [[fi fj]|]; [|done]. simpl in Hp.
  destruct (m_random_buffer m !! i) as [u|]; [|done]. simpl in Hp.
  destruct (Metropolis_accepts _ _ _) as [[]|]; simpl in Hp; [|by simplify_eq|done].
  unfold negate_at in Hp. destruct (at2 lattice fi fj); [|done].
  by eapply store2_square.
Qed.

Lemma Metropolis_proposals_preserve L m k lattice lat' :
  square L lattice → spins lattice →
  Metropolis_proposals get_dE m k lattice = Some lat' →
  square L lat' ∧ spins lat'.
Proof.
  intros Hsq Hsp. unfold Metropolis_proposals.
  apply (for_each_preserves (λ lat, square L lat ∧ spins lat)); [|done].
  intros i lat1 lat2 _ [? ?] Hp.
  eauto using Metropolis_proposal_square, Metropolis_proposal_spins.
Qed.

(** C1.  Let [lat_i] be the lattice before the proposal of index [i]
    of a run, [(fi, fj)] the coordinate pair and [u] the real drawn at
    [i], and [dE = J * get_dE(lat_i, fi, fj)].  The proposal negates
    the spin at [(fi, fj)] if and only if [dE <= 0] or
    [u < exp_values[dE + 8|J|]], it leaves that spin as it is
    otherwise, and it changes no other site. *)
Theorem Metropolis_proposal_flips m lattice i lat_i lat' fi fj u s :
  Metropolis_proposals get_dE m i lattice = Some lat_i →
  Metropolis_proposals get_dE m (S i) lattice = Some lat' →
  m_lattice_index_buffer m !! i = Some (fi, fj) →
  m_random_buffer m !! i = Some u →
  at2 lat_i fi fj = Some s → s = 1 ∨ s = -1 →
  let dE := m_J m * get_dE lat_i fi fj in
  (at2 lat' fi fj = Some (- s) ↔ accepted m dE u) ∧
  (at2 lat' fi fj = Some s ↔ ¬ accepted m dE u) ∧
  (∀ x y, (x, y) ≠ (fi, fj) → at2 lat' x y = at2 lat_i x y).
Proof.
  intros Hi HSi Hidx Hu Hs Hspin dE.
  rewrite Metropolis_proposals_S, Hi in HSi. simpl in HSi.
  unfold Metropolis_proposal in HSi. rewrite Hidx, Hu in HSi. simpl in HSi.
  fold dE in HSi.
  destruct (Metropolis_accepts m dE u) as [a|] eqn:Ha; [|done]. simpl in HSi.
  apply Metropolis_accepts_spec in Ha.
  destruct a.
  - assert (accepted m dE u) as Hacc by (by apply Ha).
    unfold negate_at in HSi. rewrite Hs in HSi. simpl in HSi.
    rewrite to_char_spin in HSi by done.
    pose proof (at2_store2_eq _ _ _ _ _ HSi) as Hnew. rewrite Hnew.
    split; [done|]. split.
    + split; [intros [= ?]; lia|done].
    + intros x y Hne. by eapply at2_store2_ne.
  - assert (¬ accepted m dE u) as Hacc by (intros ?%Ha; done).
    simplify_eq. rewrite Hs. split; [|done].
    split; [intros [= ?]; lia|done].
Qed.
End MetropolisProperties.

Lemma spins_default grid x y :
  spins grid → -1 ≤ default 0 (at2 grid x y) ≤ 1.
Proof.
  intros Hsp. destruct (at2 grid x y) as [s|] eqn:Hs; simpl; [|lia].
  destruct (spins_at2 _ _ _ _ Hsp Hs); lia.
Qed.

Lemma local_energy_delta_range grid i j :
  spins grid → -8 ≤ local_energy_delta grid i j ≤ 8.
Proof.
  intros Hsp. unfold local_energy_delta.
  pose proof (spins_default grid i j Hsp).
  pose proof (spins_default grid i ((j + 1) `rem` size_of grid) Hsp).
  pose proof (spins_default grid ((i + 1) `rem` size_of grid) j Hsp).
  pose proof (spins_default grid i ((j - 1 + size_of grid) `rem` size_of grid) Hsp).
  pose proof (spins_default grid ((i - 1 + size_of grid) `rem` size_of grid) j Hsp).
  nia.
Qed.

Section MetropolisBounds.
Variable get_dE : LatticeType → Z → Z → Z.
Variables (J : Z) (T : R) (indices : list (Z * Z)) (randoms : list R).
Hypothesis J_positive : 1 ≤ J.
Hypothesis get_dE_range : ∀ grid i j, spins grid → -8 ≤ get_dE grid i j ≤ 8.

Let m := Metropolis_new J T indices randoms.

Lemma Metropolis_index_bounds grid i j :
  spins grid →
  let index := m_J m * get_dE grid i j + get_exp_buffer_offset (m_J m) in
  0 ≤ index ≤ 16 * J ∧ index < size_of (m_cached_exp_values m).
Proof using J_positive get_dE_range.
  intros Hsp. simpl. rewrite get_exp_buffer_offset_abs.
  rewrite get_cached_exp_values_length by lia.
  pose proof (get_dE_range grid i j Hsp). nia.
Qed.

Lemma Metropolis_accepts_defined grid i j u :
  spins grid → is_Some (Metropolis_accepts m (m_J m * get_dE grid i j) u).
Proof using J_positive get_dE_range.
  intros Hsp. unfold Metropolis_accepts. case_bool_decide; [eauto|].
  destruct (proj2 (vec_at_is_Some (m_cached_exp_values m)
    (m_J m * get_dE grid i j + get_exp_buffer_offset (m_J m)))) as [e ->].
  - pose proof (Metropolis_index_bounds grid i j Hsp). simpl in *. lia.
  - simpl. eauto.
Qed.

(** With a positive coupling, coordinate pairs on the lattice and an
    index buffer as long as the random buffer, no step of
    [Metropolis::run] is undefined. *)
Lemma Metropolis_run_total L lattice :
  square L lattice → spins lattice →
  Forall (site L) indices → (length randoms ≤ length indices)%nat →
  ∃ lat', Metropolis_run get_dE m lattice = Some lat' ∧ square L lat' ∧ spins lat'.
Proof using J_positive get_dE_range.
  intros Hsq Hsp Hidx Hlen. unfold Metropolis_run, Metropolis_proposals.
  destruct (for_each_invariant (λ _ lat, square L lat ∧ spins lat)
    (Metropolis_proposal get_dE m) (seq 0 (length (m_random_buffer m))) lattice)
    as (lat' & Hrun & Hinv); [done| |by eauto].
  intros k i lat Hk [Hsq1 Hsp1].
  apply lookup_seq in Hk as [-> Hk]. simpl in Hk.
  destruct (lookup_lt_is_Some_2 indices k) as [[fi fj] Hfi]; [lia|].
  destruct (lookup_lt_is_Some_2 randoms k) as [u Hu]; [lia|].
  unfold Metropolis_proposal. simpl. rewrite Hfi, Hu. simpl.
  destruct (Metropolis_accepts_defined lat fi fj u Hsp1) as [a Ha].
  simpl in Ha. rewrite Ha. simpl. destruct a; [|by eauto].
  assert (site L (fi, fj)) as Hsite.
  { rewrite Forall_lookup in Hidx. eauto. }
  apply (at2_is_Some L lat fi fj Hsq1) in Hsite as [s Hs].
  destruct (negate_at_spec L lat fi fj s Hsq1 Hs) as (lat2 & Hneg & Hsq2 & _).
  exists lat2. eauto using negate_at_spins.
Qed.

(** C10.  With [J >= 1] and [get_dE] in [-8, 8] on lattices of spins,
    at every proposal of a run that starts from a lattice of spins
    the index [dE + buffer_offset] is in [0, 16J] and below the
    length of the table built by [get_cached_exp_values], so the read
    of the table is defined. *)
Theorem Metropolis_table_access_in_bounds lattice i lat_i fi fj :
  spins lattice →
  Metropolis_proposals get_dE m i lattice = Some lat_i →
  m_lattice_index_buffer m !! i = Some (fi, fj) →
  let dE := m_J m * get_dE lat_i fi fj in
  let index := dE + get_exp_buffer_offset (m_J m) in
  0 ≤ index ≤ 16 * J ∧
  index < size_of (m_cached_exp_values m) ∧
  is_Some (vec_at (m_cached_exp_values m) index).
Proof using J_positive get_dE_range.
  intros Hsp Hi _ dE index.
  assert (spins lat_i) as Hsp_i.
  { revert Hi. unfold Metropolis_proposals.
    apply (for_each_preserves spins); [|done].
    intros k lat1 lat2 _. apply Metropolis_proposal_spins. }
  pose proof (Metropolis_index_bounds lat_i fi fj Hsp_i) as Hb.
  split; [apply Hb|]. split; [apply Hb|].
  apply vec_at_is_Some. simpl in Hb. unfold index, dE. simpl. lia.
Qed.
End MetropolisBounds.

(** ** Swendsen-Wang engine: the bonds *)

Lemma assign2_square L v : 0 ≤ L → square L (assign2 L v).
Proof.
  intros HL. unfold square, assign2, size_of. rewrite length_replicate.
  split; [lia|]. apply Forall_replicate. rewrite length_replicate. lia.
Qed.

Lemma at2_assign2 L v x y : site L (x, y) → at2 (assign2 L v) x y = Some v.
Proof.
  intros [Hx Hy]; simpl in *. unfold at2, assign2.
  assert (∀ A (a : A) i, 0 ≤ i < L → vec_at (replicate (Z.to_nat L) a) i = Some a)
    as Hrep.
  { intros A a i Hi. apply vec_at_Some. split; [lia|].
    apply lookup_replicate_2. lia. }
  rewrite Hrep by done. simpl. by apply Hrep.
Qed.

Section BondProperties.
Variables (s : SW) (L : Z).
Hypothesis north_size : size_of (m_bond_north_buffer s) = L * L.
Hypothesis east_size : size_of (m_bond_east_buffer s) = L * L.

Lemma bond_site_spec i j st :
  site L (i, j) → bonds_inv s L i j st →
  ∃ st', bond_site s i j st = Some st' ∧ bonds_inv s L i (j + 1) st'.
Proof using north_size east_size.
  intros Hsite (Hn & He & Hc & Hdone). destruct st as [b counter]; simpl in *.
  destruct Hsite as [Hi Hj]; simpl in *.
  assert (0 ≤ counter < L * L) as Hcounter by nia.
  destruct (proj2 (vec_at_is_Some (m_bond_north_buffer s) counter)) as [un Hun]; [lia|].
  destruct (proj2 (vec_at_is_Some (m_bond_east_buffer s) counter)) as [ue Hue]; [lia|].
  destruct (store2_is_Some L (doesBondNorth b) i j
    (char_of_bool (Rltb un (freezeProbability s))) Hn) as [north Hnorth]; [done|].
  destruct (store2_is_Some L (doesBondEast b) i j
    (char_of_bool (Rltb ue (freezeProbability s))) He) as [east Heast]; [done|].
  unfold bond_site. rewrite Hun. simpl. rewrite Hnorth. simpl.
  rewrite Hue. simpl. rewrite Heast. simpl.
  eexists. split; [done|]. unfold bonds_inv; simpl.
  split; [exact (store2_square _ _ _ _ _ _ Hn Hnorth)|].
  split; [exact (store2_square _ _ _ _ _ _ He Heast)|].
  split; [lia|]. intros x y [Hx Hy] Hb; simpl in *.
  rewrite (at2_store2 _ _ _ _ _ x y ltac:(lia) ltac:(lia) Hnorth).
  rewrite (at2_store2 _ _ _ _ _ x y ltac:(lia) ltac:(lia) Heast).
  case_decide as Heq.
  - simplify_eq. unfold bond_flag. by rewrite Hun, Hue.
  - apply Hdone; [done|]. unfold before in *; simpl in *.
    destruct Hb as [?|[-> ?]]; [by left|right].
    split; [done|]. assert (y ≠ j) by congruence. lia.
Qed.

Lemma bond_row_spec i st :
  0 ≤ i < L → bonds_inv s L i 0 st →
  ∃ st', for_each (bond_site s i) (seqZ 0 L) st = Some st' ∧ bonds_inv s L (i + 1) 0 st'.
Proof using north_size east_size.
  intros Hi Hinv.
  destruct (for_each_invariant (λ k, bonds_inv s L i (Z.of_nat k))
    (bond_site s i) (seqZ 0 L) st) as (st' & Hrun & Hst'); [done| |].
  - intros k j st1 [-> Hj]%lookup_seqZ_0 Hinv1.
    destruct (bond_site_spec i (Z.of_nat k) st1) as (st2 & ? & Hinv2);
      [done|done|].
    exists st2. split; [done|]. by replace (Z.of_nat (S k)) with (Z.of_nat k + 1) by lia.
  - exists st'. split; [done|]. rewrite length_seqZ in Hst'.
    destruct Hst' as (Hn & He & Hc & Hdone).
    split; [done|]. split; [done|]. split; [lia|].
    intros x y Hsite Hb. apply Hdone; [done|].
    destruct Hsite as [_ ?]. unfold before in *. simpl in *. lia.
Qed.

(** The first pair of loops is defined and leaves, at every site, the
    flags of its row-major position. *)
Lemma SW_bonds_spec :
  0 ≤ L →
  ∃ b, SW_bonds s L = Some b ∧
    square L (doesBondNorth b) ∧ square L (doesBondEast b) ∧
    ∀ x y, site L (x, y) →
      at2 (doesBondNorth b) x y = bond_flag s (m_bond_north_buffer s) (x * L + y) ∧
      at2 (doesBondEast b) x y = bond_flag s (m_bond_east_buffer s) (x * L + y).
Proof using north_size east_size.
  intros HL. unfold SW_bonds.
  destruct (for_each_invariant (λ k, bonds_inv s L (Z.of_nat k) 0)
    (λ i, for_each (bond_site s i) (seqZ 0 L)) (seqZ 0 L)
    ({| doesBondNorth := assign2 L 0; doesBondEast := assign2 L 0 |}, 0))
    as (st' & Hrun & Hst').
  - unfold bonds_inv; simpl. split; [by apply assign2_square|].
    split; [by apply assign2_square|]. split; [lia|].
    intros x y [Hx Hy] Hb. unfold before in Hb. simpl in *. lia.
  - intros k i st1 [-> Hi]%lookup_seqZ_0 Hinv1.
    destruct (bond_row_spec (Z.of_nat k) st1) as (st2 & ? & Hinv2); [done|done|].
    exists st2. split; [done|]. by replace (Z.of_nat (S k)) with (Z.of_nat k + 1) by lia.
  - rewrite Hrun. simpl. exists st'.1. split; [done|].
    rewrite length_seqZ in Hst'. destruct Hst' as (Hn & He & _ & Hdone).
    split; [done|]. split; [done|].
    intros x y Hsite. apply Hdone; [done|].
    destruct Hsite as [? _]. unfold before. simpl in *. lia.
Qed.
End BondProperties.

(** ** Swendsen-Wang engine: the clusters *)

Lemma elem_of_all_sites L p : p ∈ all_sites L ↔ site L p.
Proof.
  destruct p as [x y]. unfold all_sites, site.
  rewrite list_elem_of_In, in_prod_iff, <- !list_elem_of_In, !elem_of_seqZ.
  simpl. lia.
Qed.

Lemma length_all_sites L : 0 ≤ L → length (all_sites L) = Z.to_nat (L * L).
Proof. intros HL. unfold all_sites. rewrite length_prod, length_seqZ. lia. Qed.

Lemma NoDup_list_prod {A B} (l : list A) (k : list B) :
  NoDup l → NoDup k → NoDup (list_prod l k).
Proof.
  intros Hl Hk. induction l as [|x l IH]; simpl; [constructor|].
  apply NoDup_cons in Hl as [Hx Hl]. apply NoDup_app. split; [|split].
  - apply NoDup_fmap_2; [|done]. by intros y1 y2 [= ->].
  - intros [x' y'] [y [[= -> ->] _]]%list_elem_of_fmap.
    rewrite list_elem_of_In, in_prod_iff, <- list_elem_of_In. by intros [? _].
  - by apply IH.
Qed.

Lemma NoDup_all_sites L : NoDup (all_sites L).
Proof. apply NoDup_list_prod; apply NoDup_seqZ. Qed.

(** Sites recorded without repetition are at most [L * L]. *)
Lemma sites_length L l :
  0 ≤ L → NoDup l → Forall (site L) l → (length l ≤ Z.to_nat (L * L))%nat.
Proof.
  intros HL Hnd Hsites. rewrite <- length_all_sites by done.
  apply submseteq_length, NoDup_submseteq; [done|].
  intros p Hp. apply elem_of_all_sites. rewrite Forall_forall in Hsites. auto.
Qed.

Lemma neighbour_site L x y d :
  0 < L → site L (x, y) → site L (neighbour L x y d).
Proof.
  intros HL [Hx Hy]; simpl in *.
  pose proof (Z.rem_bound_pos (y + 1) L ltac:(lia) HL).
  pose proof (Z.rem_bound_pos (x + 1) L ltac:(lia) HL).
  pose proof (Z.rem_bound_pos (y - 1 + L) L ltac:(lia) HL).
  pose proof (Z.rem_bound_pos (x - 1 + L) L ltac:(lia) HL).
  destruct d; unfold site; simpl; lia.
Qed.

Section ClusterProperties.
Variables (b : Bonds) (L : Z) (lat0 : LatticeType).
Hypothesis L_positive : 0 < L.
Hypothesis north_square : square L (doesBondNorth b).
Hypothesis east_square : square L (doesBondEast b).

Lemma consulted_bond_defined x y d :
  site L (x, y) → is_Some (consulted_bond b L x y d).
Proof using L_positive north_square east_square.
  intros Hs.
  pose proof (neighbour_site L x y South L_positive Hs) as [_ HS].
  pose proof (neighbour_site L x y West L_positive Hs) as [HW _].
  destruct Hs as [Hx Hy]. simpl in *.
  destruct d; simpl; (eapply at2_is_Some; [done|]); split; simpl; lia.
Qed.

(** Marking a site that is not yet found and queueing it keeps the
    invariant. *)
Lemma discover_inv st x y disc :
  scan_inv L lat0 st → site L (x, y) → (x, y) ∉ found st →
  store2 (discovered st) x y 1 = Some disc →
  scan_inv L lat0 {| lattice := lattice st; discovered := disc;
              deq := deq st ++ [(x, y)]; found := found st ++ [(x, y)];
              flipped := flipped st |}.
Proof.
  intros (Hlat & Hdisc & Hnd & Hsites & Hmarks & Hq & Hspin) Hs Hfresh Hst.
  unfold scan_inv; simpl.
  split; [done|]. split; [by eapply store2_square|].
  split. { apply NoDup_app. split; [done|]. split; [|apply NoDup_singleton].
           intros p Hp ->%list_elem_of_singleton. done. }
  split. { apply Forall_app. split; [done|]. by apply Forall_singleton. }
  split. { intros x' y' [Hx' Hy']. simpl in *.
           rewrite (at2_store2 _ _ _ _ _ x' y' ltac:(lia) ltac:(lia) Hst).
           case_decide as Heq.
           - rewrite decide_True; [done|]. rewrite Heq.
             apply elem_of_app. right. by apply list_elem_of_singleton.
           - rewrite Hmarks by done. f_equal.
             destruct (decide ((x', y') ∈ found st)) as [Hin|Hnin].
             + rewrite decide_True; [done|]. apply elem_of_app. by left.
             + rewrite decide_False; [done|].
               rewrite elem_of_app, list_elem_of_singleton. intros [?|?]; done. }
  split; [|done].
  destruct Hq as (popped & Hpop & Hsub). exists popped.
  split; [|done]. by rewrite Hpop, app_assoc.
Qed.

(** One block of the [while] loop either leaves the state as it is or
    discovers the neighbour, which then is new, on the lattice, and
    at the back of the queue. *)
Lemma examine_spec x y d st :
  scan_inv L lat0 st → site L (x, y) →
  ∃ st' new, examine b L x y d st = Some st' ∧ scan_inv L lat0 st' ∧
    deq st' = deq st ++ new ∧ found st' = found st ++ new ∧
    (new = [] ∨ new = [neighbour L x y d]).
Proof using L_positive north_square east_square.
  intros Hinv Hs.
  assert (∃ st' new, Some st = Some st' ∧ scan_inv L lat0 st' ∧
    deq st' = deq st ++ new ∧ found st' = found st ++ new ∧
    (new = [] ∨ new = [neighbour L x y d])) as Hsame.
  { exists st, []. rewrite !app_nil_r. eauto 10. }
  pose proof Hinv as (Hlat & Hdisc & _ & _ & Hmarks & _).
  pose proof (neighbour_site L x y d L_positive Hs) as Hn.
  unfold examine. destruct (neighbour L x y d) as [nx ny] eqn:Hnb.
  destruct (proj2 (at2_is_Some L (lattice st) x y Hlat) Hs) as [s ->].
  destruct (proj2 (at2_is_Some L (lattice st) nx ny Hlat) Hn) as [sn ->].
  simpl. case_bool_decide; [|done].
  rewrite (Hmarks nx ny Hn). simpl.
  case_decide as Hfound; [by rewrite bool_decide_eq_false_2|].
  rewrite bool_decide_eq_true_2 by done.
  destruct (consulted_bond_defined x y d Hs) as [bond ->]. simpl.
  case_bool_decide; [|done].
  destruct (store2_is_Some L (discovered st) nx ny 1 Hdisc Hn) as [disc Hst].
  rewrite Hst. simpl. eexists _, [(nx, ny)]. split; [done|].
  split; [by apply discover_inv|by eauto].
Qed.

(** The end of an iteration of the [while] loop: the front of the
    queue is negated when the cluster flips, and popped. *)
Lemma flip_and_pop_spec flipCluster x y rest st :
  scan_inv L lat0 st → deq st = (x, y) :: rest →
  ∃ st', flip_site flipCluster x y st = Some st' ∧ scan_inv L lat0 (pop_front st') ∧
    found (pop_front st') = found st ∧ deq (pop_front st') = rest.
Proof using L_positive.
  intros (Hlat & Hdisc & Hnd & Hsites & Hmarks & Hq & Hspin) Hdeq.
  destruct Hq as (popped & Hpop & Hsub). rewrite Hdeq in Hpop.
  assert (site L (x, y)) as Hs.
  { rewrite Forall_forall in Hsites. apply Hsites. rewrite Hpop.
    apply elem_of_app. right. by left. }
  assert ((x, y) ∉ flipped st) as Hfresh.
  { intros Hin. rewrite Hpop in Hnd. apply NoDup_app in Hnd as (_ & Hnd & _).
    apply (Hnd (x, y)); [by eapply elem_of_sublist|by left]. }
  assert (found st = (popped ++ [(x, y)]) ++ rest) as Hpop'.
  { by rewrite <- app_assoc. }
  destruct flipCluster; simpl.
  - destruct (proj2 (at2_is_Some L (lattice st) x y Hlat) Hs) as [s Hat].
    destruct (negate_at_spec L (lattice st) x y s Hlat Hat)
      as (lat & -> & Hlat' & Hnew & Hother).
    simpl. eexists. split; [done|]. unfold pop_front, scan_inv; simpl.
    rewrite Hdeq. simpl. split; [|done].
    split; [done|]. split; [done|]. split; [done|]. split; [done|].
    split; [done|]. split.
    { exists (popped ++ [(x, y)]). split; [done|]. by apply sublist_app. }
    intros x' y' Hs'. unfold spin_after.
    destruct (decide ((x', y') = (x, y))) as [[= -> ->]|Hne].
    + rewrite Hnew. rewrite Hspin in Hat by done. unfold spin_after in Hat.
      destruct (at2 lat0 x y) as [s0|]; [|done]. simpl in *.
      rewrite decide_False in Hat by done. simplify_eq.
      rewrite decide_True; [done|]. apply elem_of_app. right. by left.
    + rewrite Hother, Hspin by done. unfold spin_after.
      destruct (at2 lat0 x' y') as [s0|]; [|done]. simpl. f_equal.
      destruct (decide ((x', y') ∈ flipped st)) as [Hin|Hnin].
      * rewrite decide_True; [done|]. apply elem_of_app. by left.
      * rewrite decide_False; [done|].
        rewrite elem_of_app, list_elem_of_singleton. intros [?|?]; done.
  - eexists. split; [done|]. unfold pop_front, scan_inv; simpl.
    rewrite Hdeq. simpl. split; [|done].
    split; [done|]. split; [done|]. split; [done|]. split; [done|].
    split; [done|]. split; [|done].
    exists (popped ++ [(x, y)]). split; [done|]. by apply sublist_inserts_r.
Qed.

(** The [while] loop ends, with an empty queue, within as many
    iterations as there are sites not yet popped. *)
Lemma grow_cluster_spec flipCluster fuel st :
  scan_inv L lat0 st →
  (Z.to_nat (L * L) + length (deq st) ≤ fuel + length (found st))%nat →
  ∃ st', grow_cluster fuel b L flipCluster st = Some st' ∧ scan_inv L lat0 st' ∧
    deq st' = [] ∧ found st `prefix_of` found st'.
Proof using L_positive north_square east_square.
  revert st. induction fuel as [|fuel IH]; intros st Hinv Hfuel.
  - assert (length (found st) ≤ Z.to_nat (L * L))%nat as Hlen.
    { destruct Hinv as (_ & _ & Hnd & Hsites & _). apply sites_length; [lia|done..]. }
    destruct (deq st) as [|p rest] eqn:Hdeq; simpl in Hfuel; [|lia].
    exists st. simpl. rewrite Hdeq. done.
  - simpl. destruct (deq st) as [|[x y] rest] eqn:Hdeq; [by exists st|].
    assert (site L (x, y)) as Hs.
    { destruct Hinv as (_ & _ & _ & Hsites & _ & (popped & Hpop & _) & _).
      rewrite Forall_forall in Hsites. apply Hsites. rewrite Hpop, Hdeq.
      apply elem_of_app. right. by left. }
    destruct (examine_spec x y North st Hinv Hs)
      as (st1 & new1 & -> & Hinv1 & Hdeq1 & Hfound1 & _). simpl.
    destruct (examine_spec x y East st1 Hinv1 Hs)
      as (st2 & new2 & -> & Hinv2 & Hdeq2 & Hfound2 & _). simpl.
    destruct (examine_spec x y South st2 Hinv2 Hs)
      as (st3 & new3 & -> & Hinv3 & Hdeq3 & Hfound3 & _). simpl.
    destruct (examine_spec x y West st3 Hinv3 Hs)
      as (st4 & new4 & -> & Hinv4 & Hdeq4 & Hfound4 & _). simpl.
    rewrite Hdeq3, Hdeq2, Hdeq1, Hdeq in Hdeq4.
    rewrite Hfound3, Hfound2, Hfound1 in Hfound4.
    rewrite <- !app_assoc in Hdeq4, Hfound4. simpl in Hdeq4.
    destruct (flip_and_pop_spec flipCluster x y _ st4 Hinv4 Hdeq4)
      as (st5 & -> & Hinv5 & Hfound5 & Hdeq5). simpl.
    destruct (IH (pop_front st5) Hinv5) as (st' & Hrun & Hinv' & Hempty & Hpre).
    { rewrite Hdeq5, Hfound5, Hfound4. rewrite !length_app.
      simpl in Hfuel. lia. }
    exists st'. split; [done|]. split; [done|]. split; [done|].
    etrans; [|exact Hpre]. rewrite Hfound5, Hfound4. by apply prefix_app_r.
Qed.

Variable coin : Z → option bool.
Hypothesis coin_defined : ∀ counter, 0 ≤ counter < L * L → is_Some (coin counter).

Lemma scan_site_spec fuel i j st :
  (Z.to_nat (L * L) ≤ fuel)%nat → site L (i, j) → scan_at L lat0 i j st →
  ∃ st', scan_site fuel coin b L i j st = Some st' ∧ scan_at L lat0 i (j + 1) st'.
Proof using L_positive north_square east_square coin_defined.
  intros Hfuel Hs (Hinv & Hempty & Hc & Hdone). destruct st as [sc counter].
  simpl in *. pose proof Hinv as (_ & Hdisc & _ & _ & Hmarks & _).
  assert (∀ sc', found sc `prefix_of` found sc' → (i, j) ∈ found sc' →
    ∀ p, site L p → before i (j + 1) p → p ∈ found sc') as Hnext.
  { intros sc' [k ->] Hij [x y] Hp Hb.
    destruct (decide ((x, y) = (i, j))) as [->|Hne]; [done|].
    apply elem_of_app. left. apply Hdone; [done|].
    unfold before in *. simpl in *.
    destruct Hb as [?|[-> ?]]; [by left|right].
    split; [done|]. assert (y ≠ j) by congruence. lia. }
  unfold scan_site. rewrite (Hmarks i j Hs). simpl.
  case_decide as Hfound.
  - rewrite bool_decide_eq_false_2 by done. simpl.
    eexists. split; [done|]. unfold scan_at; simpl.
    split; [done|]. split; [done|]. split; [lia|]. by apply Hnext.
  - rewrite bool_decide_eq_true_2 by done.
    destruct Hs as [Hi Hj]; simpl in *.
    destruct (coin_defined counter) as [flipCluster ->]; [nia|].
    simpl.
    destruct (store2_is_Some L (discovered sc) i j 1 Hdisc) as [disc Hst]; [done|].
    rewrite Hst. simpl.
    pose proof (discover_inv sc i j disc Hinv ltac:(done) Hfound Hst) as Hinv0.
    rewrite Hempty in Hinv0. simpl in Hinv0.
    destruct (grow_cluster_spec flipCluster fuel _ Hinv0)
      as (sc' & -> & Hinv' & Hempty' & Hpre).
    { simpl. rewrite length_app. simpl. lia. }
    simpl in *. eexists. split; [done|]. unfold scan_at; simpl.
    split; [done|]. split; [done|]. split; [lia|].
    apply Hnext.
    + etrans; [|exact Hpre]. by apply prefix_app_r.
    + destruct Hpre as [k ->]. apply elem_of_app. left.
      apply elem_of_app. right. by left.
Qed.

Lemma scan_row_spec fuel i st :
  (Z.to_nat (L * L) ≤ fuel)%nat → 0 ≤ i < L → scan_at L lat0 i 0 st →
  ∃ st', for_each (scan_site fuel coin b L i) (seqZ 0 L) st = Some st' ∧
    scan_at L lat0 (i + 1) 0 st'.
Proof using L_positive north_square east_square coin_defined.
  intros Hfuel Hi Hinv.
  destruct (for_each_invariant (λ k, scan_at L lat0 i (Z.of_nat k))
    (scan_site fuel coin b L i) (seqZ 0 L) st) as (st' & Hrun & Hst'); [done| |].
  - intros k j st1 [-> Hj]%lookup_seqZ_0 Hinv1.
    destruct (scan_site_spec fuel i (Z.of_nat k) st1) as (st2 & ? & Hinv2);
      [done|done|done|].
    exists st2. split; [done|]. by replace (Z.of_nat (S k)) with (Z.of_nat k + 1) by lia.
  - exists st'. split; [done|]. rewrite length_seqZ in Hst'.
    destruct Hst' as (Hinv' & Hempty & Hc & Hdone).
    split; [done|]. split; [done|]. split; [lia|].
    intros p Hsite Hb. apply Hdone; [done|].
    destruct Hsite as [_ ?]. unfold before in *. simpl in *. lia.
Qed.

(** The second pair of loops is defined; it ends with an empty queue
    and every site found. *)
Lemma scan_loops_spec fuel sc :
  (Z.to_nat (L * L) ≤ fuel)%nat → scan_inv L lat0 sc → deq sc = [] →
  ∃ st', for_each (λ i, for_each (scan_site fuel coin b L i) (seqZ 0 L)) (seqZ 0 L)
           (sc, 0) = Some st' ∧
    scan_inv L lat0 st'.1 ∧ deq st'.1 = [] ∧ ∀ p, site L p → p ∈ found st'.1.
Proof using L_positive north_square east_square coin_defined.
  intros Hfuel Hinv Hempty.
  destruct (for_each_invariant (λ k, scan_at L lat0 (Z.of_nat k) 0)
    (λ i, for_each (scan_site fuel coin b L i) (seqZ 0 L)) (seqZ 0 L) (sc, 0))
    as (st' & Hrun & Hst').
  - unfold scan_at; simpl. split; [done|]. split; [done|]. split; [lia|].
    intros p [Hx Hy] Hb. unfold before in Hb. simpl in *. lia.
  - intros k i st1 [-> Hi]%lookup_seqZ_0 Hinv1.
    destruct (scan_row_spec fuel (Z.of_nat k) st1) as (st2 & ? & Hinv2);
      [done|done|done|].
    exists st2. split; [done|]. by replace (Z.of_nat (S k)) with (Z.of_nat k + 1) by lia.
  - exists st'. split; [done|].
    rewrite length_seqZ in Hst'. destruct Hst' as (Hinv' & Hempty' & _ & Hdone).
    split; [done|]. split; [done|].
    intros p Hsite. apply Hdone; [done|].
    destruct Hsite as [? _]. unfold before. simpl in *. lia.
Qed.
End ClusterProperties.

(** ** Swendsen-Wang engine: the run *)

Lemma flip_coin_defined s L :
  size_of (m_flip_buffer s) = L * L →
  ∀ counter, 0 ≤ counter < L * L → is_Some (flip_coin s counter).
Proof.
  intros Hsize counter Hc. unfold flip_coin.
  destruct (proj2 (vec_at_is_Some (m_flip_buffer s) counter)) as [u ->]; [lia|].
  simpl. eauto.
Qed.

(** With a square lattice of side [L >= 1], buffers of [L * L] values
    and [L * L] iterations for each [while] loop, [SW::run] is defined;
    the sites it discovers are all the sites, each once, the sites it
    negates are discovered ones, in their order, and the spins it
    leaves are those of [spin_after]. *)
Lemma SW_run_fuel_spec fuel s lat L :
  0 < L → square L lat →
  size_of (m_bond_north_buffer s) = L * L →
  size_of (m_bond_east_buffer s) = L * L →
  size_of (m_flip_buffer s) = L * L →
  (Z.to_nat (L * L) ≤ fuel)%nat →
  ∃ sc, SW_run_fuel fuel s lat = Some sc ∧
    square L (lattice sc) ∧
    found sc ≡ₚ all_sites L ∧
    flipped sc `sublist_of` found sc ∧
    (∀ x y, site L (x, y) → at2 (lattice sc) x y = spin_after lat (flipped sc) x y).
Proof.
  intros HL Hsq Hnorth Heast Hflip Hfuel. unfold SW_run_fuel.
  destruct Hsq as [Hsize Hrows]. rewrite Hsize.
  destruct (SW_bonds_spec s L Hnorth Heast ltac:(lia)) as (b & -> & Hbn & Hbe & _).
  simpl. unfold scan.
  destruct (scan_loops_spec b L lat HL Hbn Hbe (flip_coin s) (flip_coin_defined s L Hflip)
    fuel {| lattice := lat; discovered := assign2 L 0; deq := []; found := [];
            flipped := [] |} Hfuel) as (st' & -> & Hinv & Hempty & Hall); [|done|].
  { unfold scan_inv; simpl. split; [done|]. split; [apply assign2_square; lia|].
    split; [constructor|]. split; [constructor|].
    split. { intros x y Hs. rewrite at2_assign2 by done. done. }
    split. { exists []. done. }
    intros x y Hs. unfold spin_after. destruct (at2 lat x y); done. }
  simpl. exists st'.1. split; [done|].
  destruct Hinv as (Hlat & _ & Hnd & Hsites & _ & (popped & Hpop & Hsub) & Hspin).
  rewrite Hempty, app_nil_r in Hpop. subst popped.
  split; [done|]. split; [|done].
  apply NoDup_Permutation; [done|apply NoDup_all_sites|].
  intros p. rewrite elem_of_all_sites. split; [|apply Hall].
  rewrite Forall_forall in Hsites. apply Hsites.
Qed.

(** C3.  For a square lattice of side [L >= 1] and three buffers of
    [L * L] reals of any content, one call of [SW::run] is defined and
    discovers every one of the [L * L] sites exactly once: the sites in
    the order of discovery are the sites of the lattice without
    repetition.  Hence each site is negated at most once: the negated
    sites have no repetition and the spin left at a site is the initial
    one, negated when the site is among them. *)
Theorem SW_discovers_every_site_once s lat L :
  1 ≤ L → square L lat →
  size_of (m_bond_north_buffer s) = L * L →
  size_of (m_bond_east_buffer s) = L * L →
  size_of (m_flip_buffer s) = L * L →
  ∃ sc, SW_run s lat = Some sc ∧
    NoDup (found sc) ∧ (∀ p, p ∈ found sc ↔ site L p) ∧
    length (found sc) = Z.to_nat (L * L) ∧
    NoDup (flipped sc) ∧ (∀ p, p ∈ flipped sc → site L p) ∧
    (∀ x y, site L (x, y) → at2 (lattice sc) x y = spin_after lat (flipped sc) x y).
Proof.
  intros HL Hsq Hnorth Heast Hflip. unfold SW_run.
  pose proof Hsq as [Hsize _]. rewrite Hsize.
  destruct (SW_run_fuel_spec (Z.to_nat (L * L)) s lat L)
    as (sc & -> & _ & Hperm & Hsub & Hspin); [lia|done..|].
  exists sc. split; [done|].
  assert (NoDup (found sc)) as Hnd.
  { rewrite Hperm. apply NoDup_all_sites. }
  assert (∀ p, p ∈ found sc ↔ site L p) as Hin.
  { intros p. by rewrite Hperm, elem_of_all_sites. }
  split; [done|]. split; [done|].
  split. { rewrite Hperm. apply length_all_sites. lia. }
  split. { by eapply sublist_NoDup. }
  split; [|done]. intros p Hp. apply Hin. by eapply elem_of_sublist.
Qed.

(** C6.  In [SW::run] on a lattice [lat] with temperature [T > 0] and
    coupling [J], the freeze probability is [1 - exp(-2J / T)]; the
    first pair of loops is defined and, for the site [(i, j)] of
    row-major position [k = i * L + j], the north-bond (east-bond) flag
    is set if and only if the [k]-th value of the north-bond (east-bond)
    buffer is strictly below that probability. *)
Theorem SW_freeze_probability_and_bonds s (lat : LatticeType) :
  (0 < sw_m_T s)%R →
  size_of (m_bond_north_buffer s) = size_of lat * size_of lat →
  size_of (m_bond_east_buffer s) = size_of lat * size_of lat →
  let L := size_of lat in
  let p := (1 - exp (- (2 * IZR (sw_m_J s) / sw_m_T s)))%R in
  freezeProbability s = p ∧
  ∃ b, SW_bonds s L = Some b ∧
    ∀ i j, site L (i, j) →
      ∃ un ue north east,
        vec_at (m_bond_north_buffer s) (i * L + j) = Some un ∧
        vec_at (m_bond_east_buffer s) (i * L + j) = Some ue ∧
        at2 (doesBondNorth b) i j = Some north ∧ (north ≠ 0 ↔ (un < p)%R) ∧
        at2 (doesBondEast b) i j = Some east ∧ (east ≠ 0 ↔ (ue < p)%R).
Proof.
  intros HT Hnorth Heast L p.
  assert (freezeProbability s = p) as Hp.
  { unfold freezeProbability, p. do 2 f_equal. lra. }
  split; [done|].
  destruct (SW_bonds_spec s L Hnorth Heast) as (b & Hb & _ & _ & Hflags).
  { unfold L, size_of. lia. }
  exists b. split; [done|]. intros i j Hs.
  destruct (Hflags i j Hs) as [Hn He]. unfold bond_flag in Hn, He.
  assert (0 ≤ i * L + j < L * L) as Hk.
  { destruct Hs as [Hi Hj]; simpl in *. nia. }
  destruct (proj2 (vec_at_is_Some (m_bond_north_buffer s) (i * L + j))) as [un Hun];
    [fold L in Hnorth; lia|].
  destruct (proj2 (vec_at_is_Some (m_bond_east_buffer s) (i * L + j))) as [ue Hue];
    [fold L in Heast; lia|].
  rewrite Hun in Hn. rewrite Hue in He. simpl in Hn, He. rewrite Hp in Hn, He.
  assert (∀ u, char_of_bool (Rltb u p) ≠ 0 ↔ (u < p)%R) as Hflag.
  { intros u. unfold Rltb. case_bool_decide; simpl; split; done. }
  exists un, ue, (char_of_bool (Rltb un p)), (char_of_bool (Rltb ue p)).
  split; [done|]. split; [done|]. split; [done|]. split; [apply Hflag|].
  split; [done|apply Hflag].
Qed.

(** ** Swendsen-Wang engine: the bond relation *)

Lemma rem_succ_pred L y : 0 ≤ y < L → ((y + 1) `rem` L - 1 + L) `rem` L = y.
Proof.
  intros Hy. rewrite (Z.rem_mod_nonneg (y + 1)) by lia.
  destruct (decide (y + 1 = L)) as [Heq|Hne].
  - rewrite Heq, Z.mod_same by lia. rewrite Z.rem_small; lia.
  - rewrite Z.mod_small by lia.
    replace (y + 1 - 1 + L) with (y + 1 * L) by lia.
    rewrite Z.rem_mod_nonneg, Z.mod_add, Z.mod_small; lia.
Qed.

Lemma rem_pred_succ L y : 0 ≤ y < L → ((y - 1 + L) `rem` L + 1) `rem` L = y.
Proof.
  intros Hy. rewrite (Z.rem_mod_nonneg (y - 1 + L)) by lia.
  destruct (decide (y = 0)) as [->|Hne].
  - rewrite Z.mod_small by lia. replace (0 - 1 + L + 1) with L by lia.
    rewrite Z.rem_mod_nonneg, Z.mod_same; lia.
  - replace (y - 1 + L) with (y - 1 + 1 * L) by lia.
    rewrite Z.mod_add, Z.mod_small by lia. rewrite Z.rem_small; lia.
Qed.

(** Under periodic indexing the south and the west neighbour are the
    sites at [y - 1] and [x - 1] modulo [L]. *)
Lemma neighbour_periodic L x y :
  0 ≤ x < L → 0 ≤ y < L →
  neighbour L x y South = (x, (y - 1) `mod` L) ∧
  neighbour L x y West = ((x - 1) `mod` L, y) ∧
  neighbour L x y North = (x, (y + 1) `mod` L) ∧
  neighbour L x y East = ((x + 1) `mod` L, y).
Proof.
  intros Hx Hy. simpl. rewrite !Z.rem_mod_nonneg by lia.
  replace (y - 1 + L) with (y - 1 + 1 * L) by lia.
  replace (x - 1 + L) with (x - 1 + 1 * L) by lia.
  rewrite !Z.mod_add by lia. done.
Qed.

(** Looking back from the neighbour in the opposite direction reaches
    the site one started from, through the same flag. *)
Lemma neighbour_opposite b L x y d :
  site L (x, y) →
  let n := neighbour L x y d in
  neighbour L n.1 n.2 (opposite d) = (x, y) ∧
  consulted_bond b L n.1 n.2 (opposite d) = consulted_bond b L x y d.
Proof.
  intros [Hx Hy]; simpl in *.
  destruct d; simpl; rewrite ?rem_succ_pred, ?rem_pred_succ by done; done.
Qed.

Lemma admits_sym_1 b L a c : site L a → admits b L a c → admits b L c a.
Proof.
  destruct a as [x y]. intros Hs (d & flag & Hn & Hflag & Hset). simpl in *.
  destruct (neighbour_opposite b L x y d Hs) as [Hback Hsame].
  rewrite Hn in Hback, Hsame. exists (opposite d), flag.
  rewrite Hback, Hsame. done.
Qed.

(** ** The engines keep the lattice a lattice of spins *)

Lemma negate_at_spin_lattice L grid x y grid' :
  spin_lattice L grid → negate_at grid x y = Some grid' → spin_lattice L grid'.
Proof.
  intros [Hsq Hsp] Hneg. split; [|by eapply negate_at_spins].
  unfold negate_at in Hneg. destruct (at2 grid x y); [|done].
  by eapply store2_square.
Qed.

Lemma examine_lattice b L x y d st st' :
  examine b L x y d st = Some st' → lattice st' = lattice st.
Proof.
  unfold examine. destruct (neighbour L x y d) as [nx ny].
  destruct (at2 (lattice st) x y); [|done]. simpl.
  destruct (at2 (lattice st) nx ny); [|done]. simpl.
  case_bool_decide; [|by intros [= <-]].
  destruct (at2 (discovered st) nx ny); [|done]. simpl.
  case_bool_decide; [|by intros [= <-]].
  destruct (consulted_bond b L x y d); [|done]. simpl.
  case_bool_decide; [|by intros [= <-]].
  destruct (store2 (discovered st) nx ny 1); [|done]. simpl.
  by intros [= <-].
Qed.

Lemma flip_site_spin_lattice L flipCluster x y st st' :
  spin_lattice L (lattice st) → flip_site flipCluster x y st = Some st' →
  spin_lattice L (lattice st').
Proof.
  intros Hl. unfold flip_site. destruct flipCluster; [|by intros [= <-]].
  destruct (negate_at (lattice st) x y) as [lat|] eqn:Hneg; [|done]. simpl.
  intros [= <-]. simpl. by eapply negate_at_spin_lattice.
Qed.

Lemma grow_cluster_spin_lattice fuel b L flipCluster st st' :
  spin_lattice L (lattice st) →
  grow_cluster fuel b L flipCluster st = Some st' →
  spin_lattice L (lattice st').
Proof.
  revert st. induction fuel as [|fuel IH]; intros st Hl; simpl.
  - destruct (deq st) as [|[x y] rest]; [by intros [= <-]|done].
  - destruct (deq st) as [|[x y] rest]; [by intros [= <-]|].
    destruct (examine b L x y North st) as [st1|] eqn:H1; [|done]. simpl.
    destruct (examine b L x y East st1) as [st2|] eqn:H2; [|done]. simpl.
    destruct (examine b L x y South st2) as [st3|] eqn:H3; [|done]. simpl.
    destruct (examine b L x y West st3) as [st4|] eqn:H4; [|done]. simpl.
    destruct (flip_site flipCluster x y st4) as [st5|] eqn:H5; [|done]. simpl.
    apply IH. simpl. eapply flip_site_spin_lattice; [|done].
    apply examine_lattice in H1, H2, H3, H4. congruence.
Qed.

Lemma scan_site_spin_lattice fuel coin b L i j st st' :
  spin_lattice L (lattice st.1) → scan_site fuel coin b L i j st = Some st' →
  spin_lattice L (lattice st'.1).
Proof.
  destruct st as [sc counter]. simpl. intros Hl. unfold scan_site.
  destruct (at2 (discovered sc) i j); [|done]. simpl.
  case_bool_decide; [|by intros [= <-]].
  destruct (coin counter) as [flipCluster|]; [|done]. simpl.
  destruct (store2 (discovered sc) i j 1) as [disc|]; [|done]. simpl.
  destruct (grow_cluster _ _ _ _ _) as [sc'|] eqn:Hgrow; [|done]. simpl.
  intros [= <-]. simpl. by eapply grow_cluster_spin_lattice in Hgrow.
Qed.

Lemma SW_run_fuel_spin_lattice fuel s L lat sc :
  spin_lattice L lat → SW_run_fuel fuel s lat = Some sc →
  spin_lattice L (lattice sc).
Proof.
  intros Hl. unfold SW_run_fuel.
  pose proof Hl as [[-> _] _].
  destruct (SW_bonds s L) as [b|]; [|done]. simpl. unfold scan.
  destruct (for_each _ _ _) as [st'|] eqn:Hrun; [|done]. simpl.
  intros [= <-]. revert Hrun.
  apply (for_each_preserves (λ st, spin_lattice L (lattice st.1))); [|done].
  intros i st1 st2 _ Hl1.
  apply (for_each_preserves (λ st, spin_lattice L (lattice st.1))); [|done].
  intros j st3 st4 _. apply scan_site_spin_lattice.
Qed.

(** C9.  From a lattice of [L] rows of [L] spins, a call of
    [Metropolis::run] or of [SW::run] that is defined leaves a lattice
    of [L] rows of [L] spins, whatever the engine holds; and the calls
    are defined when the engine is well formed (buffers of the sizes
    given by the constructors, coordinate pairs on the lattice, and a
    table that covers the energy changes). *)
Theorem engines_keep_spin_lattice L lat :
  1 ≤ L → square L lat → spins lat →
  (∀ get_dE m lat',
     Metropolis_run get_dE m lat = Some lat' → square L lat' ∧ spins lat') ∧
  (∀ s sc, SW_run s lat = Some sc → square L (lattice sc) ∧ spins (lattice sc)) ∧
  (∀ get_dE J T indices randoms,
     1 ≤ J → (∀ grid i j, spins grid → -8 ≤ get_dE grid i j ≤ 8) →
     Forall (site L) indices → (length randoms ≤ length indices)%nat →
     is_Some (Metropolis_run get_dE (Metropolis_new J T indices randoms) lat)) ∧
  (∀ s,
     size_of (m_bond_north_buffer s) = L * L →
     size_of (m_bond_east_buffer s) = L * L →
     size_of (m_flip_buffer s) = L * L →
     is_Some (SW_run s lat)).
Proof.
  intros HL Hsq Hsp. split; [|split; [|split]].
  - intros get_dE m lat'. by apply Metropolis_proposals_preserve.
  - intros s sc. by apply SW_run_fuel_spin_lattice.
  - intros get_dE J T indices randoms HJ Hrange Hidx Hlen.
    destruct (Metropolis_run_total get_dE J T indices randoms HJ Hrange L lat)
      as (lat' & -> & _); done.
  - intros s Hn He Hf. unfold SW_run. pose proof Hsq as [Hsize _]. rewrite Hsize.
    destruct (SW_run_fuel_spec (Z.to_nat (L * L)) s lat L) as (sc & -> & _);
      [lia|done..|lia|done].
Qed.

(** ** Measurement and aggregation *)

Lemma accumulate_plus xs init :
  accumulate Rplus xs init = (init + Rsum xs)%R.
Proof.
  unfold accumulate. revert init. induction xs as [|x xs IH]; intros init; simpl.
  - lra.
  - rewrite IH. lra.
Qed.

Lemma accumulate_squares xs init :
  accumulate (λ init elem : R, (init + elem * elem)%R) xs init =
  (init + Rsum ((λ x, x * x)%R <$> xs))%R.
Proof.
  unfold accumulate. revert init.
  induction xs as [|x xs IH]; intros init; rewrite ?fmap_cons; simpl.
  - lra.
  - rewrite IH. lra.
Qed.

Lemma get_mean_expectation (xs : list R) : get_mean xs = expectation xs.
Proof.
  unfold get_mean, expectation. simpl. rewrite accumulate_plus.
  f_equal. lra.
Qed.

Lemma get_variance_second_moment xs : get_variance xs = second_moment_variance xs.
Proof.
  unfold get_variance, second_moment_variance. rewrite get_mean_expectation.
  f_equal. unfold get_squared_mean, expectation. rewrite accumulate_squares.
  unfold size_of. rewrite length_fmap. f_equal. lra.
Qed.

(** C7.  For every sequence of measurements at a temperature [T > 0]
    and a side [L], the specific heat that is reported is
    [(E[energy²] - E[energy]²) * L² / T²] and the susceptibility is
    [(E[magnetization²] - E[magnetization]²) * L² / T]: the variance
    is the one of the second-moment formula. *)
Theorem reported_cv_and_chi T L (properties : list PhysicalMeasurement) :
  (0 < T)%R →
  let energies := energy <$> properties in
  let magnetizations := magnetization <$> properties in
  cv (compute_results T L properties) = specific_heat T L energies ∧
  chi (compute_results T L properties) = susceptibility T L magnetizations ∧
  get_variance energies = second_moment_variance energies ∧
  get_variance magnetizations = second_moment_variance magnetizations.
Proof.
  intros HT energies mags. unfold compute_results, specific_heat, susceptibility.
  simpl. unfold get_energy_variance, get_mag_variance, get_energies, get_mags.
  rewrite !get_variance_second_moment. fold energies mags.
  split; [field; lra|]. split; [field; lra|]. done.
Qed.

(** C8.  For a list of one value [get_variance] divides by the size 1
    of the list, never by zero, and returns 0. *)
Theorem get_variance_single (v : R) :
  size_of [v] = 1 ∧ get_variance [v] = 0%R.
Proof.
  split; [done|]. unfold get_variance, get_squared_mean, get_mean, accumulate.
  cbn. change (size_of [v]) with 1. field.
Qed.

(** ** Dispatch of a job *)

(** [run_job<TAlg>] passes [magneto::Metropolis] on, whatever [TAlg]
    is. *)
Lemma run_job_alg_ignores_TAlg {IsingSystem_new get_properties engine_run} TAlg job :
  run_job_alg IsingSystem_new get_properties engine_run TAlg job =
  run_job_alg IsingSystem_new get_properties engine_run Metropolis_alg job.
Proof. reflexivity. Qed.

(** C2 (the code at a job that selects SW).  The claim asks for
    [SW::run] in the main iterations; the lattice of the job is
    advanced by the engine of class [Metropolis] in both of them, and
    the results are those of the same job with Metropolis selected. *)
Theorem run_job_SW_selected_runs_Metropolis
    (IsingSystem_new : Z → R → Z → LatticeType)
    (get_properties : LatticeType → PhysicalMeasurement)
    (engine_run : EngineObject → Algorithm → Z → R → Z → nat → LatticeType →
                  option LatticeType) :
  let lat0 := IsingSystem_new 1 2%R 2 in
  run_job IsingSystem_new get_properties engine_run (job_selecting SW_alg) =
    [ lat1 ← engine_run algorithm Metropolis_alg 1 2%R 2 0%nat lat0;
      lat2 ← engine_run algorithm Metropolis_alg 1 2%R 2 1%nat lat1;
      Some (compute_results 2 2 [get_properties lat0; get_properties lat1]) ] ∧
  run_job IsingSystem_new get_properties engine_run (job_selecting SW_alg) =
  run_job IsingSystem_new get_properties engine_run (job_selecting Metropolis_alg).
Proof.
  intros lat0. split; [|reflexivity].
  unfold run_job, run_job_alg, run_job_imager, run_job_temps,
    get_physical_results, job_selecting; simpl.
  change (iterations_from_one 1) with 0%nat.
  change (iterations_from_one 3) with 2%nat. simpl. fold lat0.
  destruct (engine_run algorithm Metropolis_alg 1 2%R 2 0%nat lat0) as [lat1|];
    [|done].
  simpl. destruct (engine_run algorithm Metropolis_alg 1 2%R 2 1%nat lat1); done.
Qed.

(** ** The theorems at concrete inputs *)

Lemma checkerboard_square : square 2 checkerboard.
Proof. split; [reflexivity|]. repeat constructor. Defined.

Lemma checkerboard_spins : spins checkerboard.
Proof. repeat constructor; (by left) || (by right). Defined.

Lemma Metropolis_proposal_flips_witness :
  Metropolis_proposals local_energy_delta metropolis_example 0 checkerboard
    = Some checkerboard ∧
  Metropolis_proposals local_energy_delta metropolis_example 1 checkerboard
    = Some checkerboard_flipped ∧
  let dE := m_J metropolis_example * local_energy_delta checkerboard 0 0 in
  (at2 checkerboard_flipped 0 0 = Some (- 1) ↔ accepted metropolis_example dE 0%R) ∧
  (at2 checkerboard_flipped 0 0 = Some 1 ↔ ¬ accepted metropolis_example dE 0%R) ∧
  (∀ x y, (x, y) ≠ (0, 0) → at2 checkerboard_flipped x y = at2 checkerboard x y).
Proof.
  split; [reflexivity|]. split; [reflexivity|].
  apply (Metropolis_proposal_flips local_energy_delta metropolis_example
           checkerboard 0 checkerboard checkerboard_flipped 0 0 0%R 1);
    [reflexivity|reflexivity|reflexivity|reflexivity|reflexivity|by left].
Defined.

Lemma Metropolis_table_access_in_bounds_witness :
  1 ≤ 1 ∧ spins checkerboard ∧
  let index := m_J metropolis_example * local_energy_delta checkerboard 0 0 +
               get_exp_buffer_offset (m_J metropolis_example) in
  0 ≤ index ≤ 16 * 1 ∧
  index < size_of (m_cached_exp_values metropolis_example) ∧
  is_Some (vec_at (m_cached_exp_values metropolis_example) index).
Proof.
  split; [lia|]. split; [exact checkerboard_spins|].
  apply (Metropolis_table_access_in_bounds local_energy_delta 1 2 [(0, 0)] [0%R]
           ltac:(lia) (λ grid i j, local_energy_delta_range grid i j)
           checkerboard 0 checkerboard 0 0);
    [exact checkerboard_spins|reflexivity|reflexivity].
Defined.

Lemma SW_discovers_every_site_once_witness :
  1 ≤ 2 ∧ square 2 checkerboard ∧
  size_of (m_flip_buffer sw_example) = 2 * 2 ∧
  ∃ sc, SW_run sw_example checkerboard = Some sc ∧
    NoDup (found sc) ∧ (∀ p, p ∈ found sc ↔ site 2 p) ∧
    length (found sc) = Z.to_nat (2 * 2) ∧
    NoDup (flipped sc) ∧ (∀ p, p ∈ flipped sc → site 2 p) ∧
    (∀ x y, site 2 (x, y) →
       at2 (lattice sc) x y = spin_after checkerboard (flipped sc) x y).
Proof.
  split; [lia|]. split; [exact checkerboard_square|]. split; [reflexivity|].
  apply (SW_discovers_every_site_once sw_example checkerboard 2);
    [lia|exact checkerboard_square|reflexivity|reflexivity|reflexivity].
Defined.

Lemma SW_freeze_probability_and_bonds_witness :
  (0 < sw_m_T sw_example)%R ∧
  freezeProbability sw_example = (1 - exp (- (2 * IZR 1 / 2)))%R ∧
  ∃ b, SW_bonds sw_example 2 = Some b ∧
    ∀ i j, site 2 (i, j) →
      ∃ un ue north east,
        vec_at (m_bond_north_buffer sw_example) (i * 2 + j) = Some un ∧
        vec_at (m_bond_east_buffer sw_example) (i * 2 + j) = Some ue ∧
        at2 (doesBondNorth b) i j = Some north ∧
        (north ≠ 0 ↔ (un < 1 - exp (- (2 * IZR 1 / 2)))%R) ∧
        at2 (doesBondEast b) i j = Some east ∧
        (east ≠ 0 ↔ (ue < 1 - exp (- (2 * IZR 1 / 2)))%R).
Proof.
  assert (0 < sw_m_T sw_example)%R as HT by (simpl; lra).
  split; [exact HT|].
  apply (SW_freeze_probability_and_bonds sw_example checkerboard HT);
    reflexivity.
Defined.

Lemma reported_cv_and_chi_witness :
  (0 < 2)%R ∧
  let properties := [ {| energy := -2; magnetization := 1 |};
                      {| energy := -1; magnetization := 0 |} ] in
  cv (compute_results 2 4 properties) = specific_heat 2 4 [-2; -1]%R ∧
  chi (compute_results 2 4 properties) = susceptibility 2 4 [1; 0]%R.
Proof.
  assert (0 < 2)%R as HT by lra. split; [exact HT|]. intros properties.
  destruct (reported_cv_and_chi 2 4 properties HT) as (Hcv & Hchi & _).
  split; [exact Hcv|exact Hchi].
Defined.

Lemma engines_keep_spin_lattice_witness :
  1 ≤ 2 ∧ square 2 checkerboard ∧ spins checkerboard ∧
  (∀ lat', Metropolis_run local_energy_delta metropolis_example checkerboard = Some lat' →
     square 2 lat' ∧ spins lat') ∧
  (∀ sc, SW_run sw_example checkerboard = Some sc →
     square 2 (lattice sc) ∧ spins (lattice sc)) ∧
  is_Some (Metropolis_run local_energy_delta metropolis_example checkerboard) ∧
  is_Some (SW_run sw_example checkerboard).
Proof.
  split; [lia|]. split; [exact checkerboard_square|].
  split; [exact checkerboard_spins|].
  destruct (engines_keep_spin_lattice 2 checkerboard ltac:(lia)
              checkerboard_square checkerboard_spins) as (HM & HSW & HMt & HSWt).
  split; [exact (HM local_energy_delta metropolis_example)|].
  split; [exact (HSW sw_example)|].
  split.
  - apply (HMt local_energy_delta 1 2%R [(0, 0)] [0%R]); [lia| | |simpl; lia].
    + exact (λ grid i j, local_energy_delta_range grid i j).
    + repeat constructor; simpl; lia.
  - apply (HSWt sw_example); reflexivity.
Defined.

(** ** Runs of the engines *)

Example get_exp_buffer_offset_examples :
  get_exp_buffer_offset 1 = 8 ∧ get_exp_buffer_offset (-3) = 24 ∧
  get_exp_buffer_offset 0 = 0.
Proof. done. Qed.

Example neighbour_examples :
  neighbour 3 0 0 North = (0, 1) ∧ neighbour 3 0 2 North = (0, 0) ∧
  neighbour 3 2 1 East = (0, 1) ∧ neighbour 3 1 0 South = (1, 2) ∧
  neighbour 3 0 1 West = (2, 1).
Proof. done. Qed.

Example local_energy_delta_examples :
  local_energy_delta uniform 0 0 = 8 ∧ local_energy_delta checkerboard 0 0 = -8 ∧
  local_energy_delta [[-1; 1]; [1; 1]] 1 1 = 8.
Proof. done. Qed.

Lemma Metropolis_proposal_step get_dE m i lattice fi fj u a :
  m_lattice_index_buffer m !! i = Some (fi, fj) →
  m_random_buffer m !! i = Some u →
  Metropolis_accepts m (m_J m * get_dE lattice fi fj) u = Some a →
  Metropolis_proposal get_dE m i lattice =
  if a then negate_at lattice fi fj else Some lattice.
Proof.
  intros Hi Hu Ha. unfold Metropolis_proposal. rewrite Hi, Hu. simpl. by rewrite Ha.
Qed.

Lemma Metropolis_accepts_uniform u :
  Metropolis_accepts metropolis_uniform 8 u = Some (Rltb u (exp (- 8 / 2))).
Proof.
  unfold Metropolis_accepts. rewrite bool_decide_eq_false_2 by lia.
  change (8 + get_exp_buffer_offset (m_J metropolis_uniform)) with (8 + 8 * Z.abs 1).
  change (m_cached_exp_values metropolis_uniform) with (get_cached_exp_values 1 2).
  rewrite get_cached_exp_values_lookup by lia. done.
Qed.

(** On the aligned lattice both proposals have [dE = 8] and read the
    entry [exp(-8 / 2)] of the table at index 16: the first one, with
    the real 0, flips the site [(0, 0)]; the second one, with the real
    1, leaves [(1, 1)] as it is. *)
Example Metropolis_run_uniform :
  Metropolis_run local_energy_delta metropolis_uniform uniform =
  Some [[-1; 1]; [1; 1]].
Proof.
  assert (0 < exp (- 8 / 2) < 1)%R as He.
  { pose proof (exp_pos (- 8 / 2)).
    pose proof (exp_increasing (- 8 / 2) 0 ltac:(lra)) as H1.
    rewrite exp_0 in H1. lra. }
  unfold Metropolis_run.
  change (length (m_random_buffer metropolis_uniform)) with 2%nat.
  rewrite !Metropolis_proposals_S.
  change (Metropolis_proposals local_energy_delta metropolis_uniform 0 uniform)
    with (Some uniform).
  change (Some ?x ≫= ?f) with (f x); cbv beta.
  rewrite (Metropolis_proposal_step _ _ 0%nat uniform 0 0 0%R true); [|done..|].
  - change (negate_at uniform 0 0) with (Some [[-1; 1]; [1; 1]]).
    change (Some ?x ≫= ?f) with (f x); cbv beta.
    rewrite (Metropolis_proposal_step _ _ 1%nat _ 1 1 1%R false); [done..|].
    change (m_J metropolis_uniform * local_energy_delta [[-1; 1]; [1; 1]] 1 1) with 8.
    rewrite Metropolis_accepts_uniform. by rewrite Rltb_false by lra.
  - change (m_J metropolis_uniform * local_energy_delta uniform 0 0) with 8.
    rewrite Metropolis_accepts_uniform. by rewrite Rltb_true by lra.
Qed.

Lemma freezeProbability_example : (0 < freezeProbability sw_example < 1)%R.
Proof.
  unfold freezeProbability. simpl.
  replace (-2 * 1 / 2)%R with (- 1)%R by lra.
  pose proof (exp_pos (-1)).
  pose proof (exp_increasing (-1) 0 ltac:(lra)) as H1.
  rewrite exp_0 in H1. lra.
Qed.

(** The bonds of [sw_example]: the reals 0 are below the freeze
    probability [1 - exp(-1)], the reals 1 are not. *)
Example SW_bonds_example :
  SW_bonds sw_example 2 =
  Some {| doesBondNorth := [[1; 0]; [1; 0]]; doesBondEast := [[0; 1]; [0; 1]] |}.
Proof.
  pose proof freezeProbability_example as Hp.
  assert (Rltb 0 (freezeProbability sw_example) = true) as H0
    by (apply Rltb_true; lra).
  assert (Rltb 1 (freezeProbability sw_example) = false) as H1
    by (apply Rltb_false; lra).
  unfold SW_bonds.
  cbv -[Rltb freezeProbability IZR]. fold sw_example. rewrite H0, H1.
  reflexivity.
Qed.

(** The second pair of loops reads the flip buffer through [coin]
    only. *)
Lemma scan_ext fuel coin coin' b L lat :
  (∀ counter, coin counter = coin' counter) →
  scan fuel coin b L lat = scan fuel coin' b L lat.
Proof.
  intros Hext. unfold scan. f_equal. apply for_each_ext. intros i st.
  apply for_each_ext. intros j [sc counter]. unfold scan_site. by rewrite Hext.
Qed.

Lemma flip_coin_example counter :
  flip_coin sw_example counter = vec_at [true; false; true; false] counter.
Proof.
  assert (Rltb 0 (1 / 2) = true) as H0 by (apply Rltb_true; lra).
  assert (Rltb 1 (1 / 2) = false) as H1 by (apply Rltb_false; lra).
  unfold flip_coin, vec_at. case_bool_decide; [|done].
  destruct (Z.to_nat counter) as [|[|[|[|n]]]]; simpl; rewrite ?H0, ?H1; done.
Qed.

(** On the aligned lattice the scan starts a cluster at [(0, 0)] that
    flips.  [(0, 0)] admits its north neighbour [(0, 1)] (north bond of
    [(0, 0)]), [(0, 1)] admits its east neighbour [(1, 1)] (east bond of
    [(0, 1)]), and [(1, 1)] admits its south neighbour [(1, 0)] through
    the north bond of [(1, 0)]: the four sites are found in this order
    and negated. *)
Example SW_run_uniform :
  SW_run sw_example uniform =
  Some {| lattice := [[-1; -1]; [-1; -1]]; discovered := [[1; 1]; [1; 1]];
          deq := [];
          found := [(0, 0); (0, 1); (1, 1); (1, 0)];
          flipped := [(0, 0); (0, 1); (1, 1); (1, 0)] |}.
Proof.
  unfold SW_run, SW_run_fuel. change (size_of uniform) with 2.
  rewrite SW_bonds_example. simpl.
  rewrite (scan_ext _ _ _ _ _ _ flip_coin_example).
  vm_compute. reflexivity.
Qed.

(** A lattice of side 3 with two bonds across the border: the north
    bond of [(0, 2)] and the east bond of [(2, 1)].  The scan at
    [(0, 0)] finds [(0, 2)] as its south neighbour, through the north
    bond of [(0, 2)], and flips both; the scan at [(0, 1)] finds
    [(2, 1)] as its west neighbour, through the east bond of [(2, 1)];
    every other site is a cluster of its own. *)
Example scan_across_the_border :
  scan 9 (vec_at [true; false; false; false; false; false; false; false; false])
    {| doesBondNorth := [[0; 0; 1]; [0; 0; 0]; [0; 0; 0]];
       doesBondEast := [[0; 0; 0]; [0; 0; 0]; [0; 1; 0]] |} 3
    [[1; 1; 1]; [1; 1; 1]; [1; 1; 1]] =
  Some {| lattice := [[-1; 1; -1]; [1; 1; 1]; [1; 1; 1]];
          discovered := [[1; 1; 1]; [1; 1; 1]; [1; 1; 1]];
          deq := [];
          found := [(0, 0); (0, 2); (0, 1); (2, 1); (1, 0); (1, 1); (1, 2);
                    (2, 0); (2, 2)];
          flipped := [(0, 0); (0, 2)] |}.
Proof. vm_compute. reflexivity. Qed.

(** * Further properties of the code *)

(** ** Aggregation *)

Lemma Rsum_cons x xs : Rsum (x :: xs) = (x + Rsum xs)%R.
Proof. reflexivity. Qed.

Lemma Rsum_squares_nonneg (f : R → R) xs : (0 <= Rsum ((λ x, f x * f x) <$> xs))%R.
Proof.
  induction xs as [|x xs IH]; [simpl; lra|].
  rewrite fmap_cons, Rsum_cons. nra.
Qed.

Lemma Rsum_deviations m xs :
  Rsum ((λ x, (x - m) * (x - m))%R <$> xs) =
  (Rsum ((λ x, x * x)%R <$> xs) - 2 * m * Rsum xs + IZR (size_of xs) * m * m)%R.
Proof.
  induction xs as [|x xs IH].
  - simpl. change (size_of []) with 0. lra.
  - rewrite !fmap_cons, !Rsum_cons, IH.
    replace (size_of (x :: xs)) with (size_of xs + 1) by (unfold size_of; simpl; lia).
    rewrite plus_IZR. lra.
Qed.

Lemma size_of_positive {A} (xs : list A) : xs ≠ [] → (0 < IZR (size_of xs))%R.
Proof.
  intros Hne. apply IZR_lt. unfold size_of. destruct xs; [done|]. simpl. lia.
Qed.

Lemma get_variance_deviations (xs : list R) :
  xs ≠ [] → get_variance xs = mean_square_deviation xs.
Proof.
  intros Hne. pose proof (size_of_positive xs Hne) as Hn.
  rewrite get_variance_second_moment.
  unfold second_moment_variance, mean_square_deviation.
  set (m := expectation xs). unfold expectation. rewrite Rsum_deviations.
  unfold size_of. rewrite !length_fmap. fold (size_of xs).
  unfold m, expectation. field. lra.
Qed.

Lemma get_variance_nonneg (xs : list R) : xs ≠ [] → (0 <= get_variance xs)%R.
Proof.
  intros Hne. pose proof (size_of_positive xs Hne) as Hn.
  rewrite get_variance_deviations by done. unfold mean_square_deviation.
  set (m := expectation xs). unfold expectation.
  unfold size_of. rewrite length_fmap. fold (size_of xs).
  apply Rmult_le_pos; [apply (Rsum_squares_nonneg (λ x, x - m)%R)|].
  left. by apply Rinv_0_lt_compat.
Qed.

(** X1.  For a non-empty list of samples [get_variance], which uses
    the second-moment formula, is the mean of the squared deviations
    from the mean, and it is not negative (over the reals). *)
Theorem get_variance_mean_square_deviation (xs : list R) :
  xs ≠ [] →
  get_variance xs = mean_square_deviation xs ∧ (0 <= get_variance xs)%R.
Proof.
  intros Hne. split; [by apply get_variance_deviations|by apply get_variance_nonneg].
Qed.

(** ** Temperatures *)

Lemma get_temps_from_length n t step : length (get_temps_from n t step) = n.
Proof. revert t. induction n as [|n IH]; intros t; simpl; [done|]. by rewrite IH. Qed.

Lemma get_temps_from_lookup n t step k :
  (k < n)%nat → get_temps_from n t step !! k = Some (t + INR k * step)%R.
Proof.
  revert t k. induction n as [|n IH]; intros t k Hk; [lia|].
  destruct k as [|k]; simpl.
  - f_equal. lra.
  - rewrite IH by lia. f_equal. destruct k; simpl; lra.
Qed.

(** X4.  For [n >= 1], [get_temps tmin tmax n] has [n] temperatures,
    the first one is [tmin], and every further one is the one before it
    plus the step [(tmax - tmin) / (n - 1)]. *)
Theorem get_temps_equidistant tmin tmax n :
  1 ≤ n →
  size_of (get_temps tmin tmax n) = n ∧
  vec_at (get_temps tmin tmax n) 0 = Some tmin ∧
  (∀ k, 0 ≤ k → k + 1 < n →
     ∃ t, vec_at (get_temps tmin tmax n) k = Some t ∧
       vec_at (get_temps tmin tmax n) (k + 1) =
       Some (t + (tmax - tmin) / IZR (n - 1))%R).
Proof.
  intros Hn.
  assert (∀ k, 0 ≤ k < n →
     vec_at (get_temps tmin tmax n) k =
     Some (tmin + INR (Z.to_nat k) * ((tmax - tmin) / IZR (n - 1)))%R) as Hk.
  { intros k Hk. apply vec_at_Some. split; [lia|]. unfold get_temps.
    by rewrite get_temps_from_lookup by lia. }
  split. { unfold size_of, get_temps. rewrite get_temps_from_length. lia. }
  split. { rewrite Hk by lia. simpl. f_equal. lra. }
  intros k Hk0 Hk1. eexists. split; [by apply Hk; lia|].
  rewrite Hk by lia. f_equal.
  replace (Z.to_nat (k + 1)) with (S (Z.to_nat k)) by lia.
  rewrite S_INR. lra.
Qed.

(** X5.  The edge cases of [get_temps]: no temperature for [n <= 0],
    and for [n = 1] the single temperature [tmin], whatever [tmax] is. *)
Theorem get_temps_degenerate tmin tmax n :
  n ≤ 1 →
  get_temps tmin tmax n = if bool_decide (n = 1) then [tmin] else [].
Proof.
  intros Hn. unfold get_temps. case_bool_decide as H1.
  - subst n. reflexivity.
  - replace (Z.to_nat n) with 0%nat by lia. reflexivity.
Qed.

(** X17.  [get_Tc] is positive and it is the temperature at which
    [sinh (2 / T) = 1], the critical temperature of the square lattice
    with coupling 1. *)
Theorem get_Tc_critical : (0 < get_Tc)%R ∧ sinh (2 / get_Tc) = 1%R.
Proof.
  pose proof Rlt_sqrt2_0 as Hroot. pose proof (sqrt_sqrt 2 ltac:(lra)) as Hsq.
  assert (0 < ln (1 + sqrt 2))%R as Hln.
  { rewrite <- ln_1. apply ln_increasing; lra. }
  unfold get_Tc. split.
  - apply Rmult_lt_0_compat; [lra|by apply Rinv_0_lt_compat].
  - replace (2 / (2 / ln (1 + sqrt 2)))%R with (ln (1 + sqrt 2)) by (field; lra).
    unfold sinh. rewrite exp_Ropp, exp_ln by lra.
    replace (/ (1 + sqrt 2))%R with (sqrt 2 - 1)%R; [lra|].
    apply (Rmult_eq_reg_l (1 + sqrt 2)); [|lra].
    rewrite Rinv_r by lra. nra.
Qed.

(** ** Jobs *)

(** X6.  The number of results of [run_job]: none when the image mode
    is neither [Movie] nor [Intervals] or when the temperature mode is
    [Image], one for a single temperature, [m_temp_steps] for a range;
    the selected algorithm plays no role. *)
Theorem run_job_result_count
    (IsingSystem_new : Z → R → Z → LatticeType)
    (get_properties : LatticeType → PhysicalMeasurement)
    (engine_run : EngineObject → Algorithm → Z → R → Z → nat → LatticeType →
                  option LatticeType)
    (job : Job) :
  length (run_job IsingSystem_new get_properties engine_run job) =
  match m_image_mode job, m_temp_mode job with
  | OtherMode, _ => 0%nat
  | _, Image => 0%nat
  | _, Single => 1%nat
  | _, Many => Z.to_nat (m_temp_steps job)
  end.
Proof.
  unfold run_job, run_job_alg, run_job_imager, run_job_temps.
  destruct (m_algorithm job), (m_image_mode job), (m_temp_mode job); simpl;
    rewrite ?length_fmap; unfold get_temps; rewrite ?get_temps_from_length; done.
Qed.

Lemma main_iterations_measurements
    (get_properties : LatticeType → PhysicalMeasurement)
    (engine_run : EngineObject → Algorithm → Z → R → Z → nat → LatticeType →
                  option LatticeType)
    TAlg J T L k count lat properties lat' properties' :
  main_iterations get_properties engine_run TAlg J T L k count lat properties =
    Some (lat', properties') →
  ∃ new, properties' = properties ++ new ∧ length new = count ∧
    (count ≠ 0%nat → head new = Some (get_properties lat)).
Proof.
  revert k lat properties. induction count as [|count IH]; intros k lat properties; simpl.
  - intros [= <- <-]. exists []. by rewrite app_nil_r.
  - destruct (engine_run algorithm TAlg J T L k lat) as [lat1|]; [|done]. simpl.
    intros (new & -> & Hlen & _)%IH.
    exists (get_properties lat :: new). rewrite <- app_assoc. simpl.
    split; [done|]. split; [by rewrite Hlen|done].
Qed.

(** X7.  A result of [get_physical_results] is computed from
    [m_n - 1] measurements (none for [m_n <= 1]); the first of them is
    taken on the lattice that the warm-up leaves, before the engine of
    the main iterations has run. *)
Theorem get_physical_results_measurements
    (IsingSystem_new : Z → R → Z → LatticeType)
    (get_properties : LatticeType → PhysicalMeasurement)
    (engine_run : EngineObject → Algorithm → Z → R → Z → nat → LatticeType →
                  option LatticeType)
    TAlg TImager T job r :
  get_physical_results IsingSystem_new get_properties engine_run TAlg TImager T job
    = Some r →
  ∃ system' properties,
    warmup engine_run 1 T (m_L job) 0 (iterations_from_one (m_start_runs job))
      (IsingSystem_new 1 T (m_L job)) = Some system' ∧
    r = compute_results T (m_L job) properties ∧
    length properties = Z.to_nat (m_n job - 1) ∧
    (2 ≤ m_n job → head properties = Some (get_properties system')).
Proof.
  unfold get_physical_results.
  destruct (warmup _ _ _ _ _ _ _) as [system'|]; [|done]. simpl.
  destruct (main_iterations _ _ _ _ _ _ _ _ _ _) as [[lat' properties]|] eqn:Hmain;
    [|done].
  simpl. intros [= <-].
  apply main_iterations_measurements in Hmain as (new & -> & Hlen & Hhead).
  exists system', new. simpl. split; [done|]. split; [done|]. split; [done|].
  intros Hn. apply Hhead. unfold iterations_from_one. lia.
Qed.

(** ** Exponential cache and acceptance *)

(** X8.  For a coupling [J >= 0] and a temperature [T > 0] the table
    has [16J + 1] entries; it has an entry for an energy change [dE]
    (at the index [dE + offset]) exactly when [dE] is between [-8J] and
    [8J], this entry is [exp(-dE / T)], and it is 1 for [dE = 0]. *)
Theorem get_cached_exp_values_ferromagnetic J T :
  0 ≤ J → (0 < T)%R →
  let entry dE := vec_at (get_cached_exp_values J T) (dE + get_exp_buffer_offset J) in
  size_of (get_cached_exp_values J T) = 16 * J + 1 ∧
  (∀ dE, is_Some (entry dE) ↔ -8 * J ≤ dE ≤ 8 * J) ∧
  (∀ dE, -8 * J ≤ dE ≤ 8 * J → entry dE = Some (exp (- IZR dE / T))) ∧
  entry 0 = Some 1%R.
Proof.
  intros HJ HT entry.
  assert (∀ dE, -8 * J ≤ dE ≤ 8 * J → entry dE = Some (exp (- IZR dE / T))) as Hentry.
  { intros dE HdE. unfold entry. rewrite get_exp_buffer_offset_abs.
    by apply get_cached_exp_values_lookup. }
  split; [by apply get_cached_exp_values_length|]. split; [|split; [done|]].
  - intros dE. unfold entry. rewrite vec_at_is_Some.
    rewrite get_cached_exp_values_length, get_exp_buffer_offset_abs by done. lia.
  - rewrite Hentry by lia. f_equal. rewrite <- exp_0. f_equal.
    unfold Rdiv. rewrite Ropp_0. apply Rmult_0_l.
Qed.

(** X9.  With a coupling [J >= 0], a temperature [T > 0] and a real
    [u] of [[0, 1)], the acceptance of an energy change [dE] between
    [-8J] and [8J] is the Metropolis criterion: the flip is accepted if
    and only if [u < exp(-dE / T)]. *)
Theorem Metropolis_criterion J T indices randoms dE u :
  0 ≤ J → (0 < T)%R → -8 * J ≤ dE ≤ 8 * J → (0 <= u < 1)%R →
  Metropolis_accepts (Metropolis_new J T indices randoms) dE u =
  Some (Rltb u (exp (- IZR dE / T))).
Proof.
  intros HJ HT HdE Hu. unfold Metropolis_accepts. simpl.
  case_bool_decide as Hneg.
  - rewrite Rltb_true; [done|].
    assert (0 <= - IZR dE / T)%R as Hx.
    { apply IZR_le in Hneg. apply Rmult_le_pos; [lra|].
      left. by apply Rinv_0_lt_compat. }
    destruct Hx as [Hx| <-]; [|rewrite exp_0; lra].
    apply exp_increasing in Hx. rewrite exp_0 in Hx. lra.
  - rewrite get_exp_buffer_offset_abs, get_cached_exp_values_lookup by lia. done.
Qed.

(** X10.  With a negative coupling the table is empty: the read of
    the table is outside of it for every energy change [dE > 0]. *)
Theorem Metropolis_antiferromagnetic_undefined J T indices randoms dE u :
  J < 0 → 0 < dE →
  Metropolis_accepts (Metropolis_new J T indices randoms) dE u = None.
Proof.
  intros HJ HdE. unfold Metropolis_accepts. simpl.
  rewrite bool_decide_eq_false_2 by lia.
  rewrite get_cached_exp_values_negative by done.
  unfold vec_at. by case_bool_decide.
Qed.

(** ** Metropolis engine *)

(** X11.  [Metropolis::run] changes no site other than the proposed
    ones: a site that is not among the coordinate pairs read by the
    loop keeps its value. *)
Theorem Metropolis_run_frame get_dE m lat lat' x y :
  Metropolis_run get_dE m lat = Some lat' →
  (x, y) ∉ take (length (m_random_buffer m)) (m_lattice_index_buffer m) →
  at2 lat' x y = at2 lat x y.
Proof.
  intros Hrun Hfresh. revert Hrun. unfold Metropolis_run, Metropolis_proposals.
  apply (for_each_preserves (λ lat1, at2 lat1 x y = at2 lat x y)); [|done].
  intros i lat1 lat2 Hi%elem_of_seq Hsame. unfold Metropolis_proposal.
  destruct (m_lattice_index_buffer m !! i) as [[fi fj]|] eqn:Hidx; [|done]. simpl.
  destruct (m_random_buffer m !! i) as [u|]; [|done]. simpl.
  destruct (Metropolis_accepts _ _ _) as [[]|]; simpl; [|by intros [= <-]|done].
  unfold negate_at. destruct (at2 lat1 fi fj) as [s|]; [|done]. simpl.
  intros Hst. rewrite <- Hsame. eapply at2_store2_ne; [|done].
  intros [= -> ->]. apply Hfresh. apply list_elem_of_lookup. exists i.
  rewrite lookup_take_lt by lia. done.
Qed.

(** ** Swendsen-Wang engine: freeze probability and coins *)

(** X12.  With a coupling [J >= 0] and a temperature [T > 0] the
    freeze probability is a probability: it is between 0 and 1, the
    bounds included. *)
Theorem SW_freezeProbability_range s :
  0 ≤ sw_m_J s → (0 < sw_m_T s)%R → (0 <= freezeProbability s <= 1)%R.
Proof.
  intros HJ HT. unfold freezeProbability.
  assert (-2 * IZR (sw_m_J s) / sw_m_T s <= 0)%R as Hneg.
  { apply IZR_le in HJ.
    replace (-2 * IZR (sw_m_J s) / sw_m_T s)%R
      with (- (2 * IZR (sw_m_J s) * / sw_m_T s))%R by (unfold Rdiv; ring).
    apply Ropp_le_cancel. rewrite Ropp_involutive, Ropp_0.
    apply Rmult_le_pos; [lra|]. left. by apply Rinv_0_lt_compat. }
  pose proof (exp_pos (-2 * IZR (sw_m_J s) / sw_m_T s)).
  split; [|lra]. destruct Hneg as [Hneg|Hzero].
  - apply exp_increasing in Hneg. rewrite exp_0 in Hneg. lra.
  - rewrite Hzero, exp_0. lra.
Qed.

(** X13.  With a coupling [J <= 0] (and [T > 0]) the freeze
    probability is not positive, so that reals that are not negative
    freeze no bond: every flag of the two bond lattices is 0. *)
Theorem SW_no_bond_without_coupling s L :
  sw_m_J s ≤ 0 → (0 < sw_m_T s)%R → 0 ≤ L →
  size_of (m_bond_north_buffer s) = L * L →
  size_of (m_bond_east_buffer s) = L * L →
  Forall (λ u, 0 <= u)%R (m_bond_north_buffer s) →
  Forall (λ u, 0 <= u)%R (m_bond_east_buffer s) →
  (freezeProbability s <= 0)%R ∧
  ∃ b, SW_bonds s L = Some b ∧
    ∀ x y, site L (x, y) →
      at2 (doesBondNorth b) x y = Some 0 ∧ at2 (doesBondEast b) x y = Some 0.
Proof.
  intros HJ HT HL Hn He Hnn Hen.
  assert (freezeProbability s <= 0)%R as Hp.
  { unfold freezeProbability.
    assert (0 <= -2 * IZR (sw_m_J s) / sw_m_T s)%R as [Hpos| <-].
    { apply IZR_le in HJ. apply Rmult_le_pos; [lra|].
      left. by apply Rinv_0_lt_compat. }
    - apply exp_increasing in Hpos. rewrite exp_0 in Hpos. lra.
    - rewrite exp_0. lra. }
  split; [done|].
  destruct (SW_bonds_spec s L Hn He HL) as (b & Hb & _ & _ & Hflags).
  exists b. split; [done|]. intros x y Hs.
  destruct (Hflags x y Hs) as [-> ->].
  assert (∀ buffer k, Forall (λ u, 0 <= u)%R buffer →
            is_Some (vec_at buffer k) → bond_flag s buffer k = Some 0) as Hzero.
  { intros buffer k Hall [u Hu]. unfold bond_flag. rewrite Hu. simpl.
    apply vec_at_Some in Hu as [_ Hu]. rewrite Forall_lookup in Hall.
    specialize (Hall _ _ Hu). simpl in Hall. rewrite Rltb_false by lra. done. }
  assert (0 ≤ x * L + y < L * L) as Hk.
  { destruct Hs as [Hx Hy]; simpl in *. nia. }
  split; apply Hzero; try done; apply vec_at_is_Some; lia.
Qed.

Lemma examine_effect b L x y d st st' :
  examine b L x y d st = Some st' →
  lattice st' = lattice st ∧ flipped st' = flipped st ∧
  ∃ new, deq st' = deq st ++ new ∧ found st' = found st ++ new.
Proof.
  assert (lattice st = lattice st ∧ flipped st = flipped st ∧
    ∃ new, deq st = deq st ++ new ∧ found st = found st ++ new) as Hsame.
  { split; [done|]. split; [done|]. exists []. by rewrite !app_nil_r. }
  unfold examine. destruct (neighbour L x y d) as [nx ny].
  destruct (at2 (lattice st) x y); [|done]. simpl.
  destruct (at2 (lattice st) nx ny); [|done]. simpl.
  case_bool_decide; [|by intros [= <-]].
  destruct (at2 (discovered st) nx ny); [|done]. simpl.
  case_bool_decide; [|by intros [= <-]].
  destruct (consulted_bond b L x y d); [|done]. simpl.
  case_bool_decide; [|by intros [= <-]].
  destruct (store2 (discovered st) nx ny 1); [|done]. simpl.
  intros [= <-]. simpl. split; [done|]. split; [done|]. by exists [(nx, ny)].
Qed.

(** The four blocks of an iteration of the [while] loop, together. *)
Lemma examine_all_effect b L x y st st1 st2 st3 st4 :
  examine b L x y North st = Some st1 → examine b L x y East st1 = Some st2 →
  examine b L x y South st2 = Some st3 → examine b L x y West st3 = Some st4 →
  lattice st4 = lattice st ∧ flipped st4 = flipped st ∧
  ∃ new, deq st4 = deq st ++ new ∧ found st4 = found st ++ new.
Proof.
  intros (Hl1 & Hf1 & n1 & Hd1 & Hfo1)%examine_effect
         (Hl2 & Hf2 & n2 & Hd2 & Hfo2)%examine_effect
         (Hl3 & Hf3 & n3 & Hd3 & Hfo3)%examine_effect
         (Hl4 & Hf4 & n4 & Hd4 & Hfo4)%examine_effect.
  split; [congruence|]. split; [congruence|].
  exists (n1 ++ n2 ++ n3 ++ n4).
  rewrite Hd4, Hd3, Hd2, Hd1, Hfo4, Hfo3, Hfo2, Hfo1, <- !app_assoc. done.
Qed.

(** A [while] loop that ends leaves an empty queue; without the flip
    it negates nothing, with the flip it negates every site it pops. *)
Lemma grow_cluster_flips fuel b L flipCluster st st' :
  grow_cluster fuel b L flipCluster st = Some st' →
  deq st' = [] ∧
  (flipCluster = false → flipped st' = flipped st) ∧
  (flipCluster = true → found st = flipped st ++ deq st →
     found st' = flipped st').
Proof.
  revert st. induction fuel as [|fuel IH]; intros st; simpl.
  - destruct (deq st) as [|[x y] rest] eqn:Hdeq; [|done]. intros [= <-].
    rewrite Hdeq, app_nil_r. done.
  - destruct (deq st) as [|[x y] rest] eqn:Hdeq.
    { intros [= <-]. rewrite Hdeq, app_nil_r. done. }
    destruct (examine b L x y North st) as [st1|] eqn:H1; [|done]. simpl.
    destruct (examine b L x y East st1) as [st2|] eqn:H2; [|done]. simpl.
    destruct (examine b L x y South st2) as [st3|] eqn:H3; [|done]. simpl.
    destruct (examine b L x y West st3) as [st4|] eqn:H4; [|done]. simpl.
    destruct (examine_all_effect _ _ _ _ _ _ _ _ _ H1 H2 H3 H4)
      as (_ & Hfl & new & Hd & Hfo).
    destruct (flip_site flipCluster x y st4) as [st5|] eqn:H5; [|done]. simpl.
    intros (Hempty & Hfalse & Htrue)%IH. split; [done|].
    unfold flip_site in H5. destruct flipCluster.
    + destruct (negate_at (lattice st4) x y); [|done]. simpl in H5.
      injection H5 as <-. simpl in *. split; [done|].
      intros _ Hq. apply Htrue; [done|].
      rewrite Hfo, Hq, Hfl, Hd, Hdeq. simpl. by rewrite <- !app_assoc.
    + injection H5 as <-. simpl in *. split; [|done].
      intros _. rewrite Hfalse by done. done.
Qed.

Lemma scan_site_flips fuel coin b L i j st st' :
  scan_site fuel coin b L i j st = Some st' →
  deq st.1 = [] → deq st'.1 = [] ∧
  ((∀ c f, coin c = Some f → f = false) → flipped st'.1 = flipped st.1) ∧
  ((∀ c f, coin c = Some f → f = true) → found st.1 = flipped st.1 →
     found st'.1 = flipped st'.1).
Proof.
  destruct st as [sc counter]. simpl. unfold scan_site.
  destruct (at2 (discovered sc) i j); [|done]. simpl.
  case_bool_decide; [|by intros [= <-]].
  destruct (coin counter) as [flipCluster|] eqn:Hcoin; [|done]. simpl.
  destruct (store2 (discovered sc) i j 1) as [disc|]; [|done]. simpl.
  destruct (grow_cluster _ _ _ _ _) as [sc'|] eqn:Hgrow; [|done]. simpl.
  intros [= <-] Hempty. simpl.
  apply grow_cluster_flips in Hgrow as (Hempty' & Hfalse & Htrue). simpl in *.
  split; [done|]. split.
  - intros Hall. apply Hfalse. by eapply Hall.
  - intros Hall Hq. apply Htrue; [by eapply Hall|]. by rewrite Hq.
Qed.

Lemma scan_flips fuel coin b L lat sc :
  scan fuel coin b L lat = Some sc →
  ((∀ c f, coin c = Some f → f = false) → flipped sc = []) ∧
  ((∀ c f, coin c = Some f → f = true) → found sc = flipped sc).
Proof.
  unfold scan. destruct (for_each _ _ _) as [st'|] eqn:Hrun; [|done]. simpl.
  intros [= <-]. revert Hrun.
  apply (for_each_preserves (λ st : Scan * Z, deq st.1 = [] ∧
    ((∀ c f, coin c = Some f → f = false) → flipped st.1 = []) ∧
    ((∀ c f, coin c = Some f → f = true) → found st.1 = flipped st.1)));
    [|done].
  intros i st1 st2 _ Hinv.
  apply (for_each_preserves (λ st : Scan * Z, deq st.1 = [] ∧
    ((∀ c f, coin c = Some f → f = false) → flipped st.1 = []) ∧
    ((∀ c f, coin c = Some f → f = true) → found st.1 = flipped st.1)));
    [|done].
  intros j st3 st4 _ (Hempty & Hfalse & Htrue) Hsite.
  destruct (scan_site_flips _ _ _ _ _ _ _ _ Hsite Hempty) as (He & Hf & Ht).
  split; [done|]. split.
  - intros Hall. rewrite Hf by done. by apply Hfalse.
  - intros Hall. apply Ht; [done|]. by apply Htrue.
Qed.

Lemma vec_at_of_nat {A} (v : list A) i : vec_at v (Z.of_nat i) = v !! i.
Proof.
  unfold vec_at. rewrite bool_decide_eq_true_2 by lia. by rewrite Nat2Z.id.
Qed.

Lemma at2_lookup (grid : LatticeType) i j :
  at2 grid (Z.of_nat i) (Z.of_nat j) = grid !! i ≫= (.!! j).
Proof.
  unfold at2. rewrite vec_at_of_nat.
  destruct (grid !! i) as [row|]; simpl; [|done]. apply vec_at_of_nat.
Qed.

(** Two square lattices with the same entries are equal. *)
Lemma square_ext L grid grid' :
  square L grid → square L grid' →
  (∀ x y, site L (x, y) → at2 grid x y = at2 grid' x y) → grid = grid'.
Proof.
  intros [Hsz Hrows] [Hsz' Hrows'] Hsame. unfold size_of in *.
  rewrite Forall_lookup in Hrows. rewrite Forall_lookup in Hrows'.
  apply list_eq_same_length with (length grid); [lia|done|].
  intros i row row' Hi Hrow Hrow'.
  pose proof (Hrows _ _ Hrow) as Hlen. pose proof (Hrows' _ _ Hrow') as Hlen'.
  simpl in Hlen, Hlen'. unfold size_of in *.
  apply list_eq_same_length with (length row); [lia|done|].
  intros j v v' Hj Hv Hv'.
  assert (site L (Z.of_nat i, Z.of_nat j)) as Hs by (split; simpl; lia).
  specialize (Hsame _ _ Hs). rewrite !at2_lookup, Hrow, Hrow' in Hsame.
  simpl in Hsame. congruence.
Qed.

Lemma flip_coin_values s (P : R → Prop) (f0 : bool) :
  Forall P (m_flip_buffer s) → (∀ u, P u → Rltb u (1 / 2) = f0) →
  ∀ c f, flip_coin s c = Some f → f = f0.
Proof.
  intros Hall HP c f. unfold flip_coin.
  destruct (vec_at (m_flip_buffer s) c) as [u|] eqn:Hu; [|done]. simpl.
  intros [= <-]. apply HP. apply vec_at_Some in Hu as [_ Hu].
  rewrite Forall_lookup in Hall. eauto.
Qed.

(** X14.  When no real of the flip buffer is below 0.5, [SW::run]
    negates no site: it leaves the lattice as it is. *)
Theorem SW_run_without_flip s lat L :
  1 ≤ L → square L lat →
  size_of (m_bond_north_buffer s) = L * L →
  size_of (m_bond_east_buffer s) = L * L →
  size_of (m_flip_buffer s) = L * L →
  Forall (λ u, 1 / 2 <= u)%R (m_flip_buffer s) →
  ∃ sc, SW_run s lat = Some sc ∧ flipped sc = [] ∧ lattice sc = lat.
Proof.
  intros HL Hsq Hn He Hf Hcoins. unfold SW_run.
  pose proof Hsq as [Hsize _]. rewrite Hsize.
  destruct (SW_run_fuel_spec (Z.to_nat (L * L)) s lat L)
    as (sc & Hrun & Hsq' & _ & _ & Hspin); [lia|done..|].
  exists sc. split; [done|].
  assert (flipped sc = []) as Hnone.
  { unfold SW_run_fuel in Hrun. rewrite Hsize in Hrun.
    destruct (SW_bonds s L) as [b|]; [|done]. simpl in Hrun.
    apply scan_flips in Hrun as [Hfalse _]. apply Hfalse.
    apply (flip_coin_values s _ false Hcoins). intros u Hu.
    apply Rltb_false. lra. }
  split; [done|]. apply (square_ext L); [done..|].
  intros x y Hs. rewrite Hspin, Hnone by done. unfold spin_after.
  destruct (at2 lat x y); done.
Qed.

(** X15.  When every real of the flip buffer is below 0.5, [SW::run]
    negates every site of the lattice, once. *)
Theorem SW_run_with_every_flip s lat L :
  1 ≤ L → square L lat →
  size_of (m_bond_north_buffer s) = L * L →
  size_of (m_bond_east_buffer s) = L * L →
  size_of (m_flip_buffer s) = L * L →
  Forall (λ u, u < 1 / 2)%R (m_flip_buffer s) →
  ∃ sc, SW_run s lat = Some sc ∧
    flipped sc ≡ₚ all_sites L ∧
    ∀ x y s0, at2 lat x y = Some s0 → at2 (lattice sc) x y = Some (to_char (s0 * -1)).
Proof.
  intros HL Hsq Hn He Hf Hcoins. unfold SW_run.
  pose proof Hsq as [Hsize _]. rewrite Hsize.
  destruct (SW_run_fuel_spec (Z.to_nat (L * L)) s lat L)
    as (sc & Hrun & Hsq' & Hperm & _ & Hspin); [lia|done..|].
  exists sc. split; [done|].
  assert (found sc = flipped sc) as Hall.
  { unfold SW_run_fuel in Hrun. rewrite Hsize in Hrun.
    destruct (SW_bonds s L) as [b|]; [|done]. simpl in Hrun.
    apply scan_flips in Hrun as [_ Htrue]. apply Htrue.
    apply (flip_coin_values s _ true Hcoins). intros u Hu.
    by apply Rltb_true. }
  rewrite <- Hall. split; [done|]. intros x y s0 Hs0.
  assert (site L (x, y)) as Hs.
  { apply (at2_is_Some L lat x y Hsq). eauto. }
  rewrite Hspin by done. unfold spin_after. rewrite Hs0. simpl.
  rewrite decide_True; [done|]. rewrite <- Hall, Hperm.
  by apply elem_of_all_sites.
Qed.

(** ** Swendsen-Wang engine: clusters flip together *)

Lemma joined_sym b L lat0 a c :
  site L a → joined b L lat0 a c → joined b L lat0 c a.
Proof. intros Ha [Hadm Heq]. split; [by apply admits_sym_1|done]. Qed.

Lemma joined_site b L lat0 a c :
  0 < L → site L a → joined b L lat0 a c → site L c.
Proof.
  intros HL Ha [(d & flag & <- & _) _]. destruct a as [x y].
  by apply neighbour_site.
Qed.

Section ClusterCoherence.
Variables (b : Bonds) (L : Z) (lat0 : LatticeType).
Hypothesis L_positive : 0 < L.
Hypothesis north_square : square L (doesBondNorth b).
Hypothesis east_square : square L (doesBondEast b).

Lemma scan_inv_facts st :
  scan_inv L lat0 st →
  (∀ p, p ∈ found st → site L p) ∧
  (∀ p, p ∈ deq st → p ∈ found st) ∧
  (∀ p, p ∈ flipped st → p ∈ found st) ∧
  (∀ p, p ∈ deq st → p ∉ flipped st).
Proof.
  intros (_ & _ & Hnd & Hsites & _ & (popped & Hpop & Hsub) & _).
  rewrite Forall_forall in Hsites. split; [done|]. split; [|split].
  - intros p Hp. rewrite Hpop. apply elem_of_app. by right.
  - intros p Hp. rewrite Hpop. apply elem_of_app. left. by eapply elem_of_sublist.
  - intros p Hp Hfl. rewrite Hpop in Hnd. apply NoDup_app in Hnd as (_ & Hnd & _).
    apply (Hnd p); [by eapply elem_of_sublist|done].
Qed.

(** The spin read at a site that is not negated yet is the initial
    one. *)
Lemma scan_inv_spin st x y :
  scan_inv L lat0 st → site L (x, y) → (x, y) ∉ flipped st →
  at2 (lattice st) x y = at2 lat0 x y ∧ is_Some (at2 lat0 x y).
Proof.
  intros (Hlat & _ & _ & _ & _ & _ & Hspin) Hs Hfl.
  destruct (proj2 (at2_is_Some L (lattice st) x y Hlat) Hs) as [v Hv].
  rewrite Hspin in Hv by done. rewrite Hspin by done. unfold spin_after in *.
  destruct (at2 lat0 x y) as [s0|]; [|done]. simpl in *.
  rewrite decide_False by done. eauto.
Qed.

(** A block of the [while] loop finds the neighbour when it is joined
    to the site at the front of the queue. *)
Lemma examine_joins x y d st st' :
  scan_inv L lat0 st → site L (x, y) → (x, y) ∉ flipped st →
  examine b L x y d st = Some st' →
  at2 lat0 x y = at2 lat0 (neighbour L x y d).1 (neighbour L x y d).2 →
  (∃ flag, consulted_bond b L x y d = Some flag ∧ flag ≠ 0) →
  neighbour L x y d ∈ found st'.
Proof using L_positive.
  intros Hinv Hs Hfl Hex Heq (flag & Hflag & Hset).
  destruct (decide (neighbour L x y d ∈ found st)) as [Hin|Hnew].
  { apply examine_effect in Hex as (_ & _ & new & _ & ->).
    apply elem_of_app. by left. }
  pose proof (neighbour_site L x y d L_positive Hs) as Hn.
  destruct (scan_inv_facts st Hinv) as (_ & _ & Hflf & _).
  revert Hex. unfold examine.
  destruct (neighbour L x y d) as [nx ny] eqn:Hnb. simpl in *.
  destruct (scan_inv_spin st x y Hinv Hs Hfl) as [-> [s0 Hs0]].
  destruct (scan_inv_spin st nx ny Hinv Hn) as [-> _]; [by intros ?%Hflf|].
  rewrite <- Heq, Hs0. simpl. rewrite bool_decide_eq_true_2 by done.
  destruct Hinv as (_ & _ & _ & _ & Hmarks & _).
  rewrite (Hmarks nx ny Hn), decide_False by done. simpl.
  rewrite Hflag. simpl.
  rewrite bool_decide_eq_true_2 by done.
  destruct (store2 (discovered st) nx ny 1); [|done]. simpl.
  intros [= <-]. simpl. apply elem_of_app. right. by left.
Qed.

(** Finding a new site and queueing it keeps the invariant of the
    clusters. *)
Lemma discover_cluster_inv flipCluster st st' n :
  cluster_inv b L lat0 flipCluster st → scan_inv L lat0 st' →
  n ∉ found st →
  found st' = found st ++ [n] → deq st' = deq st ++ [n] →
  flipped st' = flipped st →
  cluster_inv b L lat0 flipCluster st'.
Proof using L_positive.
  intros (Hinv & Hclosed & Hcoh) Hinv' Hnew Hfound Hdeq Hflipped.
  destruct (scan_inv_facts st Hinv) as (Hsites & Hdf & Hflf & Hdfl).
  assert (∀ p, p ∈ found st → flips flipCluster st' p ↔ flips flipCluster st p)
    as Hsame.
  { intros p Hp. unfold flips. rewrite Hflipped, Hdeq, elem_of_app.
    rewrite list_elem_of_singleton. split; [|tauto].
    intros [?|[? [?| ->]]]; tauto. }
  assert (∀ q, q ∈ found st → joined b L lat0 q n →
            flips flipCluster st' q ↔ flips flipCluster st' n) as Hnew_pair.
  { intros q Hq Hj. destruct (decide (q ∈ deq st)) as [Hqd|Hqd].
    - unfold flips. rewrite Hflipped, Hdeq, !elem_of_app, !list_elem_of_singleton.
      pose proof (Hdfl q Hqd). split.
      + intros [?|[? _]]; [done|]. right. tauto.
      + intros [Hn|[? _]]; [by apply Hflf in Hn|]. right. tauto.
    - by specialize (Hclosed q n Hq Hqd Hj). }
  split; [done|]. split.
  - intros p m. rewrite Hfound, Hdeq, !elem_of_app, !list_elem_of_singleton.
    intros [Hp| ->] Hpd Hj; [|tauto]. left. apply (Hclosed p m); [done|tauto|done].
  - intros p m. rewrite Hfound, !elem_of_app, !list_elem_of_singleton.
    intros [Hp| ->] [Hm| ->] Hj.
    + rewrite !Hsame by done. by apply Hcoh.
    + by apply Hnew_pair.
    + symmetry. apply Hnew_pair; [done|]. apply joined_sym; [|done].
      destruct Hinv' as (_ & _ & _ & Hs' & _). rewrite Forall_forall in Hs'.
      apply Hs'. rewrite Hfound. apply elem_of_app. right. by left.
    + done.
Qed.

Lemma examine_cluster_inv flipCluster x y d st st' :
  cluster_inv b L lat0 flipCluster st → (x, y) ∈ deq st →
  examine b L x y d st = Some st' →
  cluster_inv b L lat0 flipCluster st' ∧
  (∃ new, deq st' = deq st ++ new ∧ found st' = found st ++ new) ∧
  (at2 lat0 x y = at2 lat0 (neighbour L x y d).1 (neighbour L x y d).2 →
   (∃ flag, consulted_bond b L x y d = Some flag ∧ flag ≠ 0) →
   neighbour L x y d ∈ found st').
Proof using L_positive north_square east_square.
  intros Hc Hfront Hex. pose proof Hc as (Hinv & Hclosed & Hcoh).
  destruct (scan_inv_facts st Hinv) as (Hsites & Hdf & Hflf & Hdfl).
  assert (site L (x, y)) as Hs by (apply Hsites, Hdf, Hfront).
  destruct (examine_spec b L lat0 L_positive north_square east_square x y d st Hinv Hs)
    as (st1 & new & Hex1 & Hinv1 & Hdeq1 & Hfound1 & Hnew).
  rewrite Hex in Hex1. injection Hex1 as <-.
  split; [|split; [by eauto|]].
  - destruct Hnew as [-> | ->].
    + rewrite app_nil_r in Hdeq1, Hfound1.
      apply examine_effect in Hex as (_ & Hfl & _).
      split; [done|]. unfold flips. rewrite Hfound1, Hdeq1, Hfl. done.
    + apply examine_effect in Hex as (_ & Hfl & _).
      apply (discover_cluster_inv flipCluster st st' (neighbour L x y d));
        try done.
      destruct Hinv1 as (_ & _ & Hnd & _). rewrite Hfound1 in Hnd.
      apply NoDup_app in Hnd as (_ & Hnd & _). intros Hin.
      apply (Hnd _ Hin). by left.
  - apply (examine_joins x y d st st'); [done|done|by apply Hdfl|done].
Qed.
Lemma flip_site_effect flipCluster x y st st' :
  flip_site flipCluster x y st = Some st' →
  found st' = found st ∧ deq st' = deq st ∧
  flipped st' = flipped st ++ (if flipCluster then [(x, y)] else []).
Proof.
  unfold flip_site. destruct flipCluster.
  - destruct (negate_at (lattice st) x y); [|done]. by intros [= <-].
  - intros [= <-]. by rewrite app_nil_r.
Qed.

(** The end of an iteration: the site at the front, whose joined
    neighbours are found by now, is negated if the cluster flips, and
    popped. *)
Lemma flip_pop_cluster_inv flipCluster x y rest st st' :
  cluster_inv b L lat0 flipCluster st → deq st = (x, y) :: rest →
  (∀ n, joined b L lat0 (x, y) n → n ∈ found st) →
  flip_site flipCluster x y st = Some st' →
  cluster_inv b L lat0 flipCluster (pop_front st').
Proof using L_positive.
  intros (Hinv & Hclosed & Hcoh) Hdeq Hfront Hflip.
  destruct (flip_and_pop_spec L lat0 L_positive flipCluster x y rest st Hinv Hdeq)
    as (st1 & Hflip1 & Hinv1 & _).
  rewrite Hflip in Hflip1. injection Hflip1 as <-.
  apply flip_site_effect in Hflip as (Hfo & Hd & Hfl).
  assert (∀ p, flips flipCluster (pop_front st') p ↔ flips flipCluster st p)
    as Hsame.
  { intros p. unfold flips, pop_front; simpl. rewrite Hfl, Hd, Hdeq. simpl.
    rewrite elem_of_app, elem_of_cons. destruct flipCluster.
    - rewrite list_elem_of_singleton. tauto.
    - rewrite elem_of_nil. intuition congruence. }
  split; [done|]. split.
  - intros p n. unfold pop_front; simpl. rewrite Hfo, Hd, Hdeq. simpl.
    intros Hp Hrest Hj. destruct (decide (p = (x, y))) as [->|Hne].
    + by apply Hfront.
    + apply (Hclosed p n); [done| |done]. rewrite Hdeq, elem_of_cons. tauto.
  - intros p n. rewrite !Hsame. unfold pop_front; simpl. rewrite Hfo.
    apply Hcoh.
Qed.

Lemma grow_cluster_cluster_inv flipCluster fuel st st' :
  cluster_inv b L lat0 flipCluster st →
  grow_cluster fuel b L flipCluster st = Some st' →
  cluster_inv b L lat0 flipCluster st'.
Proof using L_positive north_square east_square.
  revert st. induction fuel as [|fuel IH]; intros st Hc; simpl.
  - destruct (deq st) as [|[x y] rest]; [by intros [= <-]|done].
  - destruct (deq st) as [|[x y] rest] eqn:Hdeq; [by intros [= <-]|].
    assert ((x, y) ∈ deq st) as Hfront by (rewrite Hdeq; by left).
    destruct (examine b L x y North st) as [st1|] eqn:H1; [|done]. simpl.
    destruct (examine_cluster_inv flipCluster x y North st st1 Hc Hfront H1)
      as (Hc1 & (n1 & Hd1 & Hf1) & HN).
    assert ((x, y) ∈ deq st1) as Hfront1 by (rewrite Hd1, elem_of_app; by left).
    destruct (examine b L x y East st1) as [st2|] eqn:H2; [|done]. simpl.
    destruct (examine_cluster_inv flipCluster x y East st1 st2 Hc1 Hfront1 H2)
      as (Hc2 & (n2 & Hd2 & Hf2) & HE).
    assert ((x, y) ∈ deq st2) as Hfront2 by (rewrite Hd2, elem_of_app; by left).
    destruct (examine b L x y South st2) as [st3|] eqn:H3; [|done]. simpl.
    destruct (examine_cluster_inv flipCluster x y South st2 st3 Hc2 Hfront2 H3)
      as (Hc3 & (n3 & Hd3 & Hf3) & HS).
    assert ((x, y) ∈ deq st3) as Hfront3 by (rewrite Hd3, elem_of_app; by left).
    destruct (examine b L x y West st3) as [st4|] eqn:H4; [|done]. simpl.
    destruct (examine_cluster_inv flipCluster x y West st3 st4 Hc3 Hfront3 H4)
      as (Hc4 & (n4 & Hd4 & Hf4) & HW).
    destruct (flip_site flipCluster x y st4) as [st5|] eqn:H5; [|done]. simpl.
    apply IH.
    apply (flip_pop_cluster_inv flipCluster x y (rest ++ n1 ++ n2 ++ n3 ++ n4) st4);
      [done| | |done].
    + rewrite Hd4, Hd3, Hd2, Hd1, Hdeq. simpl. by rewrite <- !app_assoc.
    + intros n [(d & flag & Hn & Hflag & Hset) Heq]. simpl in *. subst n.
      destruct d.
      * rewrite Hf4, Hf3, Hf2, !elem_of_app. left; left; left. eauto.
      * rewrite Hf4, Hf3, !elem_of_app. left; left. eauto.
      * rewrite Hf4, !elem_of_app. left. eauto.
      * eauto.
Qed.

Lemma cluster_inv_idle flipCluster flipCluster' st :
  deq st = [] → cluster_inv b L lat0 flipCluster st →
  cluster_inv b L lat0 flipCluster' st.
Proof.
  intros Hempty (Hinv & Hclosed & Hcoh). split; [done|]. split; [done|].
  intros p n Hp Hn Hj. specialize (Hcoh p n Hp Hn Hj). revert Hcoh.
  unfold flips. rewrite Hempty. rewrite !elem_of_nil. tauto.
Qed.

Lemma scan_site_cluster_inv fuel coin i j st st' :
  cluster_inv b L lat0 false st.1 → deq st.1 = [] →
  scan_site fuel coin b L i j st = Some st' →
  cluster_inv b L lat0 false st'.1 ∧ deq st'.1 = [].
Proof using L_positive north_square east_square.
  destruct st as [sc counter]. simpl. intros Hc Hempty. unfold scan_site.
  destruct (at2 (discovered sc) i j) as [d|] eqn:Hd; [|done]. simpl.
  case_bool_decide as Hzero; [|by intros [= <-]]. subst d.
  destruct (coin counter) as [flipCluster|]; [|done]. simpl.
  destruct (store2 (discovered sc) i j 1) as [disc|] eqn:Hst; [|done]. simpl.
  destruct (grow_cluster _ _ _ _ _) as [sc'|] eqn:Hgrow; [|done]. simpl.
  intros [= <-]. simpl.
  pose proof Hc as ((_ & Hdisc & _ & _ & Hmarks & _) & _).
  assert (site L (i, j)) as Hs.
  { apply (at2_is_Some L (discovered sc) i j Hdisc). eauto. }
  assert ((i, j) ∉ found sc) as Hnew.
  { intros Hin. rewrite (Hmarks i j Hs), decide_True in Hd by done. done. }
  pose proof (grow_cluster_flips _ _ _ _ _ _ Hgrow) as (Hempty' & _).
  split; [|done]. apply (cluster_inv_idle flipCluster); [done|].
  refine (grow_cluster_cluster_inv flipCluster fuel _ sc' _ Hgrow).
  apply (discover_cluster_inv flipCluster sc _ (i, j)); simpl; try done.
  - by apply (cluster_inv_idle false).
  - destruct Hc as [Hinv _].
    pose proof (discover_inv L lat0 sc i j disc Hinv Hs Hnew Hst) as Hinv0.
    by rewrite Hempty in Hinv0.
  - by rewrite Hempty.
Qed.

Lemma scan_cluster_inv fuel coin sc :
  square L lat0 → scan fuel coin b L lat0 = Some sc →
  cluster_inv b L lat0 false sc.
Proof using L_positive north_square east_square.
  intros Hsq. unfold scan.
  destruct (for_each _ _ _) as [st'|] eqn:Hrun; [|done]. simpl.
  intros [= <-].
  assert (cluster_inv b L lat0 false st'.1 ∧ deq st'.1 = []) as [? _]; [|done].
  revert Hrun.
  apply (for_each_preserves
    (λ st : Scan * Z, cluster_inv b L lat0 false st.1 ∧ deq st.1 = [])).
  - intros i st1 st2 _ Hinv.
    apply (for_each_preserves
      (λ st : Scan * Z, cluster_inv b L lat0 false st.1 ∧ deq st.1 = []));
      [|done].
    intros j st3 st4 _ [Hc Hempty]. by apply scan_site_cluster_inv.
  - simpl. split; [|done]. split; [|split].
    + unfold scan_inv; simpl. split; [done|]. split; [apply assign2_square; lia|].
      split; [constructor|]. split; [constructor|].
      split. { intros x y Hs. by rewrite at2_assign2. }
      split. { by exists []. }
      intros x y Hs. unfold spin_after. by destruct (at2 lat0 x y).
    + simpl. by intros p n ?%elem_of_nil.
    + simpl. by intros p n ?%elem_of_nil.
Qed.
End ClusterCoherence.

(** X16.  [SW::run] flips clusters as a whole: two neighbours that
    hold equal spins before the run and whose bond is frozen (one
    would admit the other) are both negated or both kept, and hold
    equal spins after the run. *)
Theorem SW_run_flips_joined_sites_together s lat L :
  1 ≤ L → square L lat →
  size_of (m_bond_north_buffer s) = L * L →
  size_of (m_bond_east_buffer s) = L * L →
  size_of (m_flip_buffer s) = L * L →
  ∃ b sc, SW_bonds s L = Some b ∧ SW_run s lat = Some sc ∧
    ∀ a c, site L a → site L c →
      admits b L a c → at2 lat a.1 a.2 = at2 lat c.1 c.2 →
      (a ∈ flipped sc ↔ c ∈ flipped sc) ∧
      at2 (lattice sc) a.1 a.2 = at2 (lattice sc) c.1 c.2.
Proof.
  intros HL Hsq Hn He Hf. unfold SW_run.
  pose proof Hsq as [Hsize _]. rewrite Hsize.
  destruct (SW_run_fuel_spec (Z.to_nat (L * L)) s lat L)
    as (sc & Hrun & _ & Hperm & _ & Hspin); [lia|done..|].
  destruct (SW_bonds_spec s L Hn He) as (b & Hb & Hbn & Hbe & _); [lia|].
  exists b, sc. split; [done|]. split; [done|].
  unfold SW_run_fuel in Hrun. rewrite Hsize, Hb in Hrun. simpl in Hrun.
  pose proof (scan_cluster_inv b L lat ltac:(lia) Hbn Hbe _ _ sc Hsq Hrun)
    as (_ & _ & Hcoh).
  assert (deq sc = []) as Hempty.
  { unfold scan in Hrun. destruct (for_each _ _ _) as [st'|] eqn:Hloops; [|done].
    simpl in Hrun. injection Hrun as <-. revert Hloops.
    apply (for_each_preserves (λ st : Scan * Z, deq st.1 = [])); [|done].
    intros i st1 st2 _ Hinv.
    apply (for_each_preserves (λ st : Scan * Z, deq st.1 = [])); [|done].
    intros j st3 st4 _ Hd Hsite. by apply scan_site_flips in Hsite as [? _]. }
  intros a c Ha Hc Hadm Heq.
  assert (a ∈ flipped sc ↔ c ∈ flipped sc) as Hiff.
  { specialize (Hcoh a c). unfold flips in Hcoh. rewrite Hempty in Hcoh.
    rewrite !elem_of_nil in Hcoh. rewrite !Hperm, !elem_of_all_sites in Hcoh.
    specialize (Hcoh Ha Hc (conj Hadm Heq)). tauto. }
  split; [done|]. destruct a as [ax ay], c as [cx cy]. simpl in *.
  rewrite !Hspin by done. unfold spin_after. rewrite Heq.
  destruct (at2 lat cx cy) as [s0|]; [|done]. simpl.
  destruct (decide ((ax, ay) ∈ flipped sc)) as [Hin|Hnin].
  - rewrite decide_True; [done|]. by apply Hiff.
  - rewrite decide_False; [done|]. by rewrite <- Hiff.
Qed.

(** ** Swendsen-Wang engine: the bond that a block reads *)

(** One block of the [while] loop at a site of a well-formed state: it
    is defined, it reads the flag of [consulted_bond], and it queues
    the neighbour when the spins are equal, the neighbour is not
    discovered and the flag is set; otherwise it changes nothing. *)
Lemma examine_reads b L x y d st :
  0 < L → square L (doesBondNorth b) → square L (doesBondEast b) →
  square L (lattice st) → square L (discovered st) → site L (x, y) →
  ∃ st' flag, examine b L x y d st = Some st' ∧
    consulted_bond b L x y d = Some flag ∧
    (at2 (lattice st) x y =
       at2 (lattice st) (neighbour L x y d).1 (neighbour L x y d).2 →
     at2 (discovered st) (neighbour L x y d).1 (neighbour L x y d).2 = Some 0 →
     flag ≠ 0 →
     deq st' = deq st ++ [neighbour L x y d] ∧
     found st' = found st ++ [neighbour L x y d] ∧
     at2 (discovered st') (neighbour L x y d).1 (neighbour L x y d).2 = Some 1 ∧
     lattice st' = lattice st ∧ flipped st' = flipped st) ∧
    (¬ (at2 (lattice st) x y =
          at2 (lattice st) (neighbour L x y d).1 (neighbour L x y d).2 ∧
        at2 (discovered st) (neighbour L x y d).1 (neighbour L x y d).2 = Some 0 ∧
        flag ≠ 0) →
     st' = st).
Proof.
  intros HL Hbn Hbe Hlat Hdisc Hs.
  destruct (consulted_bond_defined b L HL Hbn Hbe x y d Hs) as [flag Hflag].
  pose proof (neighbour_site L x y d HL Hs) as Hn.
  unfold examine. rewrite Hflag. destruct (neighbour L x y d) as [nx ny].
  cbn [fst snd].
  destruct (proj2 (at2_is_Some L (lattice st) x y Hlat) Hs) as [s0 Hs0].
  destruct (proj2 (at2_is_Some L (lattice st) nx ny Hlat) Hn) as [sn Hsn].
  destruct (proj2 (at2_is_Some L (discovered st) nx ny Hdisc) Hn) as [dn Hdn].
  rewrite Hs0, Hsn, Hdn. simpl.
  case_bool_decide as Heq.
  2:{ exists st, flag. split; [done|]. split; [done|]. split; [|done].
      intros [= ?]. done. }
  case_bool_decide as Hzero.
  2:{ exists st, flag. split; [done|]. split; [done|]. split; [|done].
      intros _ [= ?]. done. }
  case_bool_decide as Hset.
  2:{ exists st, flag. split; [done|]. split; [done|]. split; [|done].
      intros _ _ ?. done. }
  destruct (store2_is_Some L (discovered st) nx ny 1 Hdisc Hn) as [disc Hst].
  rewrite Hst. simpl. eexists _, flag. split; [done|]. split; [done|]. split.
  - intros _ _ _. simpl. split; [done|]. split; [done|].
    split; [by eapply at2_store2_eq|done].
  - intros Hnot. destruct Hnot. subst. done.
Qed.

(** Sites that are joined are negated together, whichever of the two
    is discovered first. *)
Lemma SW_run_joined s lat L b :
  1 ≤ L → square L lat →
  size_of (m_bond_north_buffer s) = L * L →
  size_of (m_bond_east_buffer s) = L * L →
  size_of (m_flip_buffer s) = L * L →
  SW_bonds s L = Some b →
  ∃ sc, SW_run s lat = Some sc ∧
    ∀ a c, site L a → site L c → joined b L lat a c →
      (a ∈ flipped sc ↔ c ∈ flipped sc).
Proof.
  intros HL Hsq Hn He Hf Hb. unfold SW_run.
  pose proof Hsq as [Hsize _]. rewrite Hsize.
  destruct (SW_run_fuel_spec (Z.to_nat (L * L)) s lat L)
    as (sc & Hrun & _ & Hperm & _ & _); [lia|done..|].
  destruct (SW_bonds_spec s L Hn He) as (b' & Hb' & Hbn & Hbe & _); [lia|].
  assert (b' = b) as -> by congruence.
  exists sc. split; [done|].
  unfold SW_run_fuel in Hrun. rewrite Hsize, Hb in Hrun. simpl in Hrun.
  pose proof (scan_cluster_inv b L lat ltac:(lia) Hbn Hbe _ _ sc Hsq Hrun)
    as (_ & _ & Hcoh).
  assert (deq sc = []) as Hempty.
  { unfold scan in Hrun. destruct (for_each _ _ _) as [st'|] eqn:Hloops; [|done].
    simpl in Hrun. injection Hrun as <-. revert Hloops.
    apply (for_each_preserves (λ st : Scan * Z, deq st.1 = [])); [|done].
    intros i st1 st2 _ Hinv.
    apply (for_each_preserves (λ st : Scan * Z, deq st.1 = [])); [|done].
    intros j st3 st4 _ Hd Hsite. by apply scan_site_flips in Hsite as [? _]. }
  intros a c Ha Hc Hj.
  specialize (Hcoh a c). unfold flips in Hcoh. rewrite Hempty in Hcoh.
  rewrite !elem_of_nil in Hcoh. rewrite !Hperm, !elem_of_all_sites in Hcoh.
  specialize (Hcoh Ha Hc Hj). tauto.
Qed.

(** C5.  In the traversal of [SW::run] the south neighbour of a site
    [(x, y)] is [(x, (y - 1) mod L)] and is examined through the
    north-bond flag of that neighbour, the west neighbour is
    [((x - 1) mod L, y)] and is examined through the east-bond flag of
    that neighbour: the block of the [while] loop for a direction
    queues the neighbour exactly when the spins are equal, the
    neighbour is not discovered and this flag is set.  Hence, for two
    sites [a] and [c] of the lattice, [a] would admit [c] exactly when
    [c] would admit [a], and in a run two sites with equal spins are
    negated together when either of them would admit the other. *)
Theorem SW_bond_lookup_symmetric b L :
  1 ≤ L → square L (doesBondNorth b) → square L (doesBondEast b) →
  (∀ x y, site L (x, y) →
     neighbour L x y South = (x, (y - 1) `mod` L) ∧
     consulted_bond b L x y South = at2 (doesBondNorth b) x ((y - 1) `mod` L) ∧
     neighbour L x y West = ((x - 1) `mod` L, y) ∧
     consulted_bond b L x y West = at2 (doesBondEast b) ((x - 1) `mod` L) y) ∧
  (∀ st x y d,
     square L (lattice st) → square L (discovered st) → site L (x, y) →
     ∃ st' flag, examine b L x y d st = Some st' ∧
       consulted_bond b L x y d = Some flag ∧
       (at2 (lattice st) x y =
          at2 (lattice st) (neighbour L x y d).1 (neighbour L x y d).2 →
        at2 (discovered st) (neighbour L x y d).1 (neighbour L x y d).2 = Some 0 →
        flag ≠ 0 →
        deq st' = deq st ++ [neighbour L x y d] ∧
        found st' = found st ++ [neighbour L x y d] ∧
        at2 (discovered st') (neighbour L x y d).1 (neighbour L x y d).2 = Some 1 ∧
        lattice st' = lattice st ∧ flipped st' = flipped st) ∧
       (¬ (at2 (lattice st) x y =
             at2 (lattice st) (neighbour L x y d).1 (neighbour L x y d).2 ∧
           at2 (discovered st) (neighbour L x y d).1 (neighbour L x y d).2 = Some 0 ∧
           flag ≠ 0) →
        st' = st)) ∧
  (∀ a c, site L a → site L c → admits b L a c ↔ admits b L c a) ∧
  (∀ s lat,
     SW_bonds s L = Some b → square L lat →
     size_of (m_bond_north_buffer s) = L * L →
     size_of (m_bond_east_buffer s) = L * L →
     size_of (m_flip_buffer s) = L * L →
     ∃ sc, SW_run s lat = Some sc ∧
       ∀ a c, site L a → site L c →
         admits b L a c ∨ admits b L c a →
         at2 lat a.1 a.2 = at2 lat c.1 c.2 →
         (a ∈ flipped sc ↔ c ∈ flipped sc)).
Proof.
  intros HL Hbn Hbe. split; [|split; [|split]].
  - intros x y [Hx Hy]; simpl in *.
    destruct (neighbour_periodic L x y Hx Hy) as (HS & HW & _).
    simpl in HS, HW. injection HS as HS. injection HW as HW.
    simpl. by rewrite HS, HW.
  - intros st x y d Hlat Hdisc Hs. apply examine_reads; [lia|done..].
  - intros a c Ha Hc. split; by apply admits_sym_1.
  - intros s lat Hb Hsq Hn He Hf.
    destruct (SW_run_joined s lat L b HL Hsq Hn He Hf Hb) as (sc & Hrun & Hjoined).
    exists sc. split; [done|]. intros a c Ha Hc Hadm Heq.
    apply Hjoined; [done|done|]. split; [|done].
    destruct Hadm as [Hadm|Hadm]; [done|by apply admits_sym_1].
Qed.

(** ** Swendsen-Wang engine: no frozen bond *)

Section Uncoupled.
Variables (b : Bonds) (L : Z) (lat0 : LatticeType).
Hypothesis L_positive : 0 < L.
Hypothesis north_square : square L (doesBondNorth b).
Hypothesis east_square : square L (doesBondEast b).
Variable coin : Z → option bool.
Hypothesis coin_defined : ∀ counter, 0 ≤ counter < L * L → is_Some (coin counter).
Hypothesis no_bond : ∀ x y, site L (x, y) →
  at2 (doesBondNorth b) x y = Some 0 ∧ at2 (doesBondEast b) x y = Some 0.

Lemma consulted_unbonded x y d :
  site L (x, y) → consulted_bond b L x y d = Some 0.
Proof using L_positive no_bond.
  intros Hs. pose proof (neighbour_site L x y South L_positive Hs) as HS.
  pose proof (neighbour_site L x y West L_positive Hs) as HW.
  destruct d; simpl in *.
  - by apply no_bond.
  - by apply no_bond.
  - by apply no_bond.
  - by apply no_bond.
Qed.

Lemma examine_unbonded x y d st st' :
  site L (x, y) → examine b L x y d st = Some st' → st' = st.
Proof using L_positive no_bond.
  intros Hs. unfold examine. destruct (neighbour L x y d) as [nx ny].
  destruct (at2 (lattice st) x y); [|done]. simpl.
  destruct (at2 (lattice st) nx ny); [|done]. simpl.
  case_bool_decide; [|by intros [= <-]].
  destruct (at2 (discovered st) nx ny); [|done]. simpl.
  case_bool_decide; [|by intros [= <-]].
  rewrite consulted_unbonded by done. simpl.
  by intros [= <-].
Qed.

(** Without a frozen bond a cluster is its first site. *)
Lemma grow_cluster_unbonded flipCluster fuel i j st st' :
  site L (i, j) → deq st = [(i, j)] →
  grow_cluster fuel b L flipCluster st = Some st' →
  found st' = found st ∧ deq st' = [] ∧
  flipped st' = flipped st ++ (if flipCluster then [(i, j)] else []).
Proof using L_positive no_bond.
  intros Hs Hdeq. destruct fuel as [|fuel]; simpl; rewrite Hdeq; [done|].
  destruct (examine b L i j North st) as [st1|] eqn:H1; [|done]. simpl.
  apply examine_unbonded in H1 as ->; [|done].
  destruct (examine b L i j East st) as [st2|] eqn:H2; [|done]. simpl.
  apply examine_unbonded in H2 as ->; [|done].
  destruct (examine b L i j South st) as [st3|] eqn:H3; [|done]. simpl.
  apply examine_unbonded in H3 as ->; [|done].
  destruct (examine b L i j West st) as [st4|] eqn:H4; [|done]. simpl.
  apply examine_unbonded in H4 as ->; [|done].
  destruct (flip_site flipCluster i j st) as [st5|] eqn:H5; [|done]. simpl.
  apply flip_site_effect in H5 as (Hfo & Hd & Hfl).
  assert (deq (pop_front st5) = []) as Hempty.
  { unfold pop_front; simpl. by rewrite Hd, Hdeq. }
  assert (grow_cluster fuel b L flipCluster (pop_front st5) = Some (pop_front st5))
    as ->.
  { destruct fuel; cbn [grow_cluster]; by rewrite Hempty. }
  intros [= <-]. done.
Qed.

Lemma scan_site_unbonded fuel i j st :
  (Z.to_nat (L * L) ≤ fuel)%nat → site L (i, j) → uncoupled_at coin L lat0 i j st →
  ∃ st', scan_site fuel coin b L i j st = Some st' ∧
    uncoupled_at coin L lat0 i (j + 1) st'.
Proof using L_positive north_square east_square coin_defined no_bond.
  intros Hfuel Hs (Hat & Hbefore & Hflipped).
  destruct (scan_site_spec b L lat0 L_positive north_square east_square coin
              coin_defined fuel i j st Hfuel Hs Hat) as (st' & Hrun & Hat').
  exists st'. split; [done|]. split; [done|].
  destruct Hat as (_ & _ & Hc & _). destruct st as [sc counter]. simpl in *.
  unfold scan_site in Hrun.
  destruct (at2 (discovered sc) i j); [|done]. simpl in Hrun.
  case_bool_decide.
  - destruct (coin counter) as [flipCluster|] eqn:Hcoin; [|done]. simpl in Hrun.
    destruct (store2 (discovered sc) i j 1) as [disc|]; [|done]. simpl in Hrun.
    destruct (grow_cluster _ _ _ _ _) as [sc'|] eqn:Hgrow; [|done].
    simpl in Hrun. injection Hrun as <-. simpl.
    apply (grow_cluster_unbonded flipCluster fuel i j) in Hgrow
      as (Hfo & _ & Hfl); [|done|done]. simpl in *.
    rewrite Hfo, Hfl. split.
    + intros p [Hp| ->%list_elem_of_singleton]%elem_of_app.
      * apply Hbefore in Hp. unfold before in *. lia.
      * unfold before. simpl. lia.
    + intros x y. rewrite !elem_of_app, Hflipped, list_elem_of_singleton. split.
      * intros [[? ?]|Hnew]; [tauto|]. destruct flipCluster.
        -- apply list_elem_of_singleton in Hnew as [= -> ->].
           split; [by right|]. by rewrite <- Hc.
        -- by apply elem_of_nil in Hnew.
      * intros [[?| [= -> ->]] Htrue]; [tauto|]. right.
        rewrite <- Hc, Hcoin in Htrue. injection Htrue as ->.
        by apply list_elem_of_singleton.
  - simpl in Hrun. injection Hrun as <-. simpl. split; [|done].
    intros p Hp. apply Hbefore in Hp. unfold before in *. lia.
Qed.

Lemma scan_row_unbonded fuel i st :
  (Z.to_nat (L * L) ≤ fuel)%nat → 0 ≤ i < L → uncoupled_at coin L lat0 i 0 st →
  ∃ st', for_each (scan_site fuel coin b L i) (seqZ 0 L) st = Some st' ∧
    uncoupled_at coin L lat0 (i + 1) 0 st'.
Proof using L_positive north_square east_square coin_defined no_bond.
  intros Hfuel Hi Hinv.
  destruct (for_each_invariant (λ k, uncoupled_at coin L lat0 i (Z.of_nat k))
    (scan_site fuel coin b L i) (seqZ 0 L) st) as (st' & Hrun & Hst'); [done| |].
  - intros k j st1 [-> Hj]%lookup_seqZ_0 Hinv1.
    destruct (scan_site_unbonded fuel i (Z.of_nat k) st1) as (st2 & ? & Hinv2);
      [done|done|done|].
    exists st2. split; [done|].
    by replace (Z.of_nat (S k)) with (Z.of_nat k + 1) by lia.
  - exists st'. split; [done|]. rewrite length_seqZ in Hst'.
    destruct Hst' as ((Hinv' & Hempty & Hc & Hdone) & Hbefore & Hflipped).
    assert (∀ p, p ∈ found st'.1 → site L p) as Hsites.
    { destruct Hinv' as (_ & _ & _ & Hsites & _).
      rewrite Forall_forall in Hsites. done. }
    split; [|split; [|done]].
    + split; [done|]. split; [done|]. split; [lia|].
      intros p Hsite Hb. apply Hdone; [done|].
      destruct Hsite as [_ ?]. unfold before in *. simpl in *. lia.
    + intros p Hp. pose proof (Hsites p Hp) as [_ ?]. apply Hbefore in Hp.
      unfold before in *. simpl in *. lia.
Qed.

Lemma scan_unbonded fuel :
  (Z.to_nat (L * L) ≤ fuel)%nat → square L lat0 →
  ∃ sc, scan fuel coin b L lat0 = Some sc ∧
    ∀ x y, site L (x, y) → (x, y) ∈ flipped sc ↔ coin (x * L + y) = Some true.
Proof using L_positive north_square east_square coin_defined no_bond.
  intros Hfuel Hsq. unfold scan.
  destruct (for_each_invariant (λ k, uncoupled_at coin L lat0 (Z.of_nat k) 0)
    (λ i, for_each (scan_site fuel coin b L i) (seqZ 0 L)) (seqZ 0 L)
    ({| lattice := lat0; discovered := assign2 L 0; deq := []; found := [];
        flipped := [] |}, 0)) as (st' & -> & Hst').
  - split; [|split].
    + unfold scan_at, scan_inv; simpl. split.
      { split; [done|]. split; [apply assign2_square; lia|].
        split; [constructor|]. split; [constructor|].
        split. { intros x y Hs. by rewrite at2_assign2. }
        split. { by exists []. }
        intros x y Hs. unfold spin_after. by destruct (at2 lat0 x y). }
      split; [done|]. split; [lia|].
      intros p [Hx Hy] Hb. unfold before in Hb. simpl in *. lia.
    + simpl. by intros p ?%elem_of_nil.
    + simpl. intros x y. split; [by intros ?%elem_of_nil|].
      by intros [?%elem_of_nil _].
  - intros k i st1 [-> Hi]%lookup_seqZ_0 Hinv1.
    destruct (scan_row_unbonded fuel (Z.of_nat k) st1) as (st2 & ? & Hinv2);
      [done|done|done|].
    exists st2. split; [done|].
    by replace (Z.of_nat (S k)) with (Z.of_nat k + 1) by lia.
  - simpl. exists st'.1. split; [done|]. rewrite length_seqZ in Hst'.
    destruct Hst' as ((_ & _ & _ & Hdone) & _ & Hflipped).
    intros x y Hs. rewrite Hflipped. split; [tauto|]. intros Htrue.
    split; [|done]. apply Hdone; [done|].
    destruct Hs as [? _]. unfold before. simpl in *. lia.
Qed.
End Uncoupled.

(** X18.  When no bond is frozen (no real of the two bond buffers is
    below the freeze probability), every site is a cluster of its own:
    [SW::run] negates the site [(x, y)] if and only if the real of
    index [x * L + y] of the flip buffer is below 0.5. *)
Theorem SW_run_without_bond s lat L :
  1 ≤ L → square L lat →
  size_of (m_bond_north_buffer s) = L * L →
  size_of (m_bond_east_buffer s) = L * L →
  size_of (m_flip_buffer s) = L * L →
  Forall (λ u, freezeProbability s <= u)%R (m_bond_north_buffer s) →
  Forall (λ u, freezeProbability s <= u)%R (m_bond_east_buffer s) →
  ∃ sc, SW_run s lat = Some sc ∧
    ∀ x y s0, at2 lat x y = Some s0 →
      ∃ u, vec_at (m_flip_buffer s) (x * L + y) = Some u ∧
        ((x, y) ∈ flipped sc ↔ (u < 1 / 2)%R) ∧
        at2 (lattice sc) x y =
          Some (if Rltb u (1 / 2) then to_char (s0 * -1) else s0).
Proof.
  intros HL Hsq Hn He Hf Hnorth Heast.
  destruct (SW_bonds_spec s L Hn He) as (b & Hb & Hbn & Hbe & Hflags); [lia|].
  assert (∀ buffer k, Forall (λ u, freezeProbability s <= u)%R buffer →
    0 ≤ k < size_of buffer → bond_flag s buffer k = Some 0) as Hzero.
  { intros buffer k Hall Hk. unfold bond_flag.
    destruct (proj2 (vec_at_is_Some buffer k) Hk) as [u Hu]. rewrite Hu. simpl.
    rewrite Rltb_false; [done|]. apply vec_at_Some in Hu as [_ Hu].
    rewrite Forall_lookup in Hall. eauto. }
  assert (∀ x y, site L (x, y) →
    at2 (doesBondNorth b) x y = Some 0 ∧ at2 (doesBondEast b) x y = Some 0)
    as Hnone.
  { intros x y Hs. destruct (Hflags x y Hs) as [-> ->].
    destruct Hs as [Hx Hy]; simpl in *.
    split; apply Hzero; try done; nia. }
  destruct (scan_unbonded b L lat ltac:(lia) Hbn Hbe (flip_coin s)
              (flip_coin_defined s L Hf) Hnone (Z.to_nat (L * L)) ltac:(lia) Hsq)
    as (sc & Hscan & Hcoin).
  assert (SW_run s lat = Some sc) as Hrun.
  { unfold SW_run, SW_run_fuel. pose proof Hsq as [-> _]. by rewrite Hb. }
  exists sc. split; [done|]. intros x y s0 Hs0.
  assert (site L (x, y)) as Hs.
  { apply (at2_is_Some L lat x y Hsq). eauto. }
  destruct (SW_run_fuel_spec (Z.to_nat (L * L)) s lat L)
    as (sc' & Hrun' & _ & _ & _ & Hspin); [lia|done..|].
  assert (sc' = sc) as ->.
  { unfold SW_run in Hrun. pose proof Hsq as [Hsize _]. rewrite Hsize in Hrun.
    congruence. }
  destruct (flip_coin_defined s L Hf (x * L + y)) as [f Hflip].
  { destruct Hs as [Hx Hy]; simpl in *. nia. }
  pose proof Hflip as Hread. unfold flip_coin in Hread.
  destruct (vec_at (m_flip_buffer s) (x * L + y)) as [u|]; [|done].
  simpl in Hread. injection Hread as Hread. exists u. split; [done|].
  assert ((x, y) ∈ flipped sc ↔ (u < 1 / 2)%R) as Hiff.
  { rewrite (Hcoin x y Hs), Hflip, <- Hread. unfold Rltb.
    split.
    - intros [= Hdec]. by apply bool_decide_eq_true in Hdec.
    - intros Hlt. by rewrite bool_decide_eq_true_2. }
  split; [done|]. rewrite (Hspin x y Hs). unfold spin_after. rewrite Hs0. simpl.
  unfold Rltb. destruct (decide ((x, y) ∈ flipped sc)) as [Hin|Hnin].
  - by rewrite bool_decide_eq_true_2 by by apply Hiff.
  - rewrite bool_decide_eq_false_2; [done|]. by rewrite <- Hiff.
Qed.

(** ** The further properties at concrete inputs *)

Lemma get_variance_mean_square_deviation_witness :
  [1; 3]%R ≠ [] ∧
  get_variance [1; 3]%R = mean_square_deviation [1; 3]%R ∧
  (0 <= get_variance [1; 3]%R)%R.
Proof.
  assert ([1; 3]%R ≠ []) as Hne by discriminate.
  split; [exact Hne|]. exact (get_variance_mean_square_deviation [1; 3]%R Hne).
Defined.

Lemma get_temps_equidistant_witness :
  1 ≤ 3 ∧
  size_of (get_temps 1 3 3) = 3 ∧
  vec_at (get_temps 1 3 3) 0 = Some 1%R ∧
  (∀ k, 0 ≤ k → k + 1 < 3 →
     ∃ t, vec_at (get_temps 1 3 3) k = Some t ∧
       vec_at (get_temps 1 3 3) (k + 1) = Some (t + (3 - 1) / IZR (3 - 1))%R).
Proof.
  assert (1 ≤ 3) as Hn by lia.
  split; [exact Hn|]. exact (get_temps_equidistant 1 3 3 Hn).
Defined.

Lemma get_temps_degenerate_witness :
  1 ≤ 1 ∧ 0 ≤ 1 ∧
  get_temps 1 3 1 = [1%R] ∧ get_temps 1 3 0 = [].
Proof.
  assert (1 ≤ 1) as H1 by lia. assert (0 ≤ 1) as H0 by lia.
  split; [exact H1|]. split; [exact H0|].
  split; [exact (get_temps_degenerate 1 3 1 H1)|exact (get_temps_degenerate 1 3 0 H0)].
Defined.

Lemma get_physical_results_measurements_witness :
  let job := job_selecting Metropolis_alg in
  let r := compute_results 2 2 [aligned_properties uniform; aligned_properties uniform] in
  get_physical_results aligned_system aligned_properties idle_engine
    Metropolis_alg MovieWriter 2 job = Some r ∧
  ∃ system' properties,
    warmup idle_engine 1 2 (m_L job) 0 (iterations_from_one (m_start_runs job))
      (aligned_system 1 2 (m_L job)) = Some system' ∧
    r = compute_results 2 (m_L job) properties ∧
    length properties = Z.to_nat (m_n job - 1) ∧
    (2 ≤ m_n job → head properties = Some (aligned_properties system')).
Proof.
  intros job r.
  assert (get_physical_results aligned_system aligned_properties idle_engine
            Metropolis_alg MovieWriter 2 job = Some r) as Hrun by reflexivity.
  split; [exact Hrun|].
  exact (get_physical_results_measurements aligned_system aligned_properties
           idle_engine Metropolis_alg MovieWriter 2 job r Hrun).
Defined.

Lemma get_cached_exp_values_ferromagnetic_witness :
  0 ≤ 1 ∧ (0 < 2)%R ∧
  let entry dE := vec_at (get_cached_exp_values 1 2) (dE + get_exp_buffer_offset 1) in
  size_of (get_cached_exp_values 1 2) = 16 * 1 + 1 ∧
  (∀ dE, is_Some (entry dE) ↔ -8 * 1 ≤ dE ≤ 8 * 1) ∧
  (∀ dE, -8 * 1 ≤ dE ≤ 8 * 1 → entry dE = Some (exp (- IZR dE / 2))) ∧
  entry 0 = Some 1%R.
Proof.
  assert (0 ≤ 1) as HJ by lia. assert (0 < 2)%R as HT by lra.
  split; [exact HJ|]. split; [exact HT|].
  exact (get_cached_exp_values_ferromagnetic 1 2 HJ HT).
Defined.

Lemma Metropolis_criterion_witness :
  0 ≤ 1 ∧ (0 < 2)%R ∧ -8 * 1 ≤ 4 ≤ 8 * 1 ∧ (0 <= 1 / 2 < 1)%R ∧
  Metropolis_accepts metropolis_example 4 (1 / 2) =
  Some (Rltb (1 / 2) (exp (- IZR 4 / 2))).
Proof.
  assert (0 ≤ 1) as HJ by lia. assert (0 < 2)%R as HT by lra.
  assert (-8 * 1 ≤ 4 ≤ 8 * 1) as HdE by lia.
  assert (0 <= 1 / 2 < 1)%R as Hu by lra.
  split; [exact HJ|]. split; [exact HT|]. split; [exact HdE|]. split; [exact Hu|].
  exact (Metropolis_criterion 1 2 [(0, 0)] [0%R] 4 (1 / 2) HJ HT HdE Hu).
Defined.

Lemma Metropolis_antiferromagnetic_undefined_witness :
  -1 < 0 ∧ 0 < 8 ∧
  Metropolis_accepts (Metropolis_new (-1) 2 [(0, 0)] [0%R]) 8 0 = None.
Proof.
  assert (-1 < 0) as HJ by lia. assert (0 < 8) as HdE by lia.
  split; [exact HJ|]. split; [exact HdE|].
  exact (Metropolis_antiferromagnetic_undefined (-1) 2 [(0, 0)] [0%R] 8 0 HJ HdE).
Defined.

Lemma Metropolis_run_frame_witness :
  Metropolis_run local_energy_delta metropolis_example checkerboard
    = Some checkerboard_flipped ∧
  ((1, 1) ∉ take (length (m_random_buffer metropolis_example))
              (m_lattice_index_buffer metropolis_example)) ∧
  at2 checkerboard_flipped 1 1 = at2 checkerboard 1 1.
Proof.
  assert (Metropolis_run local_energy_delta metropolis_example checkerboard
            = Some checkerboard_flipped) as Hrun by reflexivity.
  assert ((1, 1) ∉ take (length (m_random_buffer metropolis_example))
                     (m_lattice_index_buffer metropolis_example)) as Hfresh.
  { simpl. intros Hin%list_elem_of_singleton. discriminate Hin. }
  split; [exact Hrun|]. split; [exact Hfresh|].
  exact (Metropolis_run_frame local_energy_delta metropolis_example checkerboard
           checkerboard_flipped 1 1 Hrun Hfresh).
Defined.

Lemma SW_freezeProbability_range_witness :
  0 ≤ sw_m_J sw_example ∧ (0 < sw_m_T sw_example)%R ∧
  (0 <= freezeProbability sw_example <= 1)%R.
Proof.
  assert (0 ≤ sw_m_J sw_example) as HJ by (simpl; lia).
  assert (0 < sw_m_T sw_example)%R as HT by (simpl; lra).
  split; [exact HJ|]. split; [exact HT|].
  exact (SW_freezeProbability_range sw_example HJ HT).
Defined.

Lemma SW_no_bond_without_coupling_witness :
  sw_m_J sw_uncoupled ≤ 0 ∧ (0 < sw_m_T sw_uncoupled)%R ∧
  Forall (λ u, 0 <= u)%R (m_bond_north_buffer sw_uncoupled) ∧
  Forall (λ u, 0 <= u)%R (m_bond_east_buffer sw_uncoupled) ∧
  (freezeProbability sw_uncoupled <= 0)%R ∧
  ∃ b, SW_bonds sw_uncoupled 2 = Some b ∧
    ∀ x y, site 2 (x, y) →
      at2 (doesBondNorth b) x y = Some 0 ∧ at2 (doesBondEast b) x y = Some 0.
Proof.
  assert (sw_m_J sw_uncoupled ≤ 0) as HJ by (simpl; lia).
  assert (0 < sw_m_T sw_uncoupled)%R as HT by (simpl; lra).
  assert (Forall (λ u, 0 <= u)%R (m_bond_north_buffer sw_uncoupled)) as Hn
    by (repeat constructor; lra).
  assert (Forall (λ u, 0 <= u)%R (m_bond_east_buffer sw_uncoupled)) as He
    by (repeat constructor; lra).
  split; [exact HJ|]. split; [exact HT|]. split; [exact Hn|]. split; [exact He|].
  exact (SW_no_bond_without_coupling sw_uncoupled 2 HJ HT ltac:(lia)
           eq_refl eq_refl Hn He).
Defined.

Lemma SW_run_without_flip_witness :
  1 ≤ 2 ∧ square 2 checkerboard ∧
  Forall (λ u, 1 / 2 <= u)%R (m_flip_buffer sw_keeping) ∧
  ∃ sc, SW_run sw_keeping checkerboard = Some sc ∧
    flipped sc = [] ∧ lattice sc = checkerboard.
Proof.
  assert (1 ≤ 2) as HL by lia.
  assert (Forall (λ u, 1 / 2 <= u)%R (m_flip_buffer sw_keeping)) as Hcoins
    by (repeat constructor; lra).
  split; [exact HL|]. split; [exact checkerboard_square|]. split; [exact Hcoins|].
  exact (SW_run_without_flip sw_keeping checkerboard 2 HL checkerboard_square
           eq_refl eq_refl eq_refl Hcoins).
Defined.

Lemma SW_run_with_every_flip_witness :
  1 ≤ 2 ∧ square 2 checkerboard ∧
  Forall (λ u, u < 1 / 2)%R (m_flip_buffer sw_flipping) ∧
  ∃ sc, SW_run sw_flipping checkerboard = Some sc ∧
    flipped sc ≡ₚ all_sites 2 ∧
    ∀ x y s0, at2 checkerboard x y = Some s0 →
      at2 (lattice sc) x y = Some (to_char (s0 * -1)).
Proof.
  assert (1 ≤ 2) as HL by lia.
  assert (Forall (λ u, u < 1 / 2)%R (m_flip_buffer sw_flipping)) as Hcoins
    by (repeat constructor; lra).
  split; [exact HL|]. split; [exact checkerboard_square|]. split; [exact Hcoins|].
  exact (SW_run_with_every_flip sw_flipping checkerboard 2 HL checkerboard_square
           eq_refl eq_refl eq_refl Hcoins).
Defined.

Lemma SW_run_flips_joined_sites_together_witness :
  1 ≤ 2 ∧ square 2 uniform ∧
  ∃ b sc, SW_bonds sw_example 2 = Some b ∧ SW_run sw_example uniform = Some sc ∧
    ∀ a c, site 2 a → site 2 c →
      admits b 2 a c → at2 uniform a.1 a.2 = at2 uniform c.1 c.2 →
      (a ∈ flipped sc ↔ c ∈ flipped sc) ∧
      at2 (lattice sc) a.1 a.2 = at2 (lattice sc) c.1 c.2.
Proof.
  assert (1 ≤ 2) as HL by lia.
  assert (square 2 uniform) as Hsq by (split; [reflexivity|repeat constructor]).
  split; [exact HL|]. split; [exact Hsq|].
  exact (SW_run_flips_joined_sites_together sw_example uniform 2 HL Hsq
           eq_refl eq_refl eq_refl).
Defined.

Lemma SW_run_without_bond_witness :
  1 ≤ 2 ∧ square 2 checkerboard ∧
  Forall (λ u, freezeProbability sw_uncoupled <= u)%R
    (m_bond_north_buffer sw_uncoupled) ∧
  Forall (λ u, freezeProbability sw_uncoupled <= u)%R
    (m_bond_east_buffer sw_uncoupled) ∧
  ∃ sc, SW_run sw_uncoupled checkerboard = Some sc ∧
    ∀ x y s0, at2 checkerboard x y = Some s0 →
      ∃ u, vec_at (m_flip_buffer sw_uncoupled) (x * 2 + y) = Some u ∧
        ((x, y) ∈ flipped sc ↔ (u < 1 / 2)%R) ∧
        at2 (lattice sc) x y =
          Some (if Rltb u (1 / 2) then to_char (s0 * -1) else s0).
Proof.
  assert (1 ≤ 2) as HL by lia.
  assert (freezeProbability sw_uncoupled = 0%R) as Hp.
  { unfold freezeProbability. simpl.
    replace (-2 * 0 / 2)%R with 0%R by lra. rewrite exp_0. lra. }
  assert (Forall (λ u, freezeProbability sw_uncoupled <= u)%R
            (m_bond_north_buffer sw_uncoupled)) as Hn
    by (rewrite Hp; repeat constructor; lra).
  assert (Forall (λ u, freezeProbability sw_uncoupled <= u)%R
            (m_bond_east_buffer sw_uncoupled)) as He
    by (rewrite Hp; repeat constructor; lra).
  split; [exact HL|]. split; [exact checkerboard_square|].
  split; [exact Hn|]. split; [exact He|].
  exact (SW_run_without_bond sw_uncoupled checkerboard 2 HL checkerboard_square
           eq_refl eq_refl eq_refl Hn He).
Defined.

Lemma SW_bond_lookup_symmetric_witness :
  1 ≤ 2 ∧
  square 2 (doesBondNorth sw_example_bonds) ∧
  square 2 (doesBondEast sw_example_bonds) ∧
  (∀ x y, site 2 (x, y) →
     neighbour 2 x y South = (x, (y - 1) `mod` 2) ∧
     consulted_bond sw_example_bonds 2 x y South =
       at2 (doesBondNorth sw_example_bonds) x ((y - 1) `mod` 2) ∧
     neighbour 2 x y West = ((x - 1) `mod` 2, y) ∧
     consulted_bond sw_example_bonds 2 x y West =
       at2 (doesBondEast sw_example_bonds) ((x - 1) `mod` 2) y) ∧
  (∀ a c, site 2 a → site 2 c →
     admits sw_example_bonds 2 a c ↔ admits sw_example_bonds 2 c a) ∧
  ∃ sc, SW_run sw_example uniform = Some sc ∧
    ∀ a c, site 2 a → site 2 c →
      admits sw_example_bonds 2 a c ∨ admits sw_example_bonds 2 c a →
      at2 uniform a.1 a.2 = at2 uniform c.1 c.2 →
      (a ∈ flipped sc ↔ c ∈ flipped sc).
Proof.
  assert (1 ≤ 2) as HL by lia.
  assert (square 2 (doesBondNorth sw_example_bonds)) as Hn
    by (split; [reflexivity|repeat constructor]).
  assert (square 2 (doesBondEast sw_example_bonds)) as He
    by (split; [reflexivity|repeat constructor]).
  assert (square 2 uniform) as Hsq by (split; [reflexivity|repeat constructor]).
  destruct (SW_bond_lookup_symmetric sw_example_bonds 2 HL Hn He)
    as (Hreads & _ & Hsym & Hrun).
  split; [exact HL|]. split; [exact Hn|]. split; [exact He|].
  split; [exact Hreads|]. split; [exact Hsym|].
  exact (Hrun sw_example uniform SW_bonds_example Hsq eq_refl eq_refl eq_refl).
Defined.
